(** * Filter streams (utils/filter_streams.cc)

    A shallow embedding of [ML::filter_ostream] and [ML::filter_istream]:
    the suffix test [ends_with], the construction of the filtering pipeline
    in the three [open] overloads, the constructors, [close] and [status].

    The C++ standard library, Boost.Iostreams and the operating system are
    not part of the repository.  What the code needs from them is modelled
    as follows:
    - [std::string] is [string] (a sequence of 8-bit characters), its
      [size_type] is a 64-bit unsigned integer kept in [Z];
    - the stream state of [std::basic_ios] (buffer pointer, state flags,
      exception mask) is a record, with [clear], [rdbuf] and [exceptions]
      as the standard defines them;
    - the file devices of Boost.Iostreams are operations of a [Platform]
      class over an abstract world; a small reference file system
      instantiates it. *)

From stdpp Require Import base strings gmap.
From Stdlib Require Import ZArith Ascii String.

Local Open Scope Z_scope.

(** ** [std::string] *)

Module StdString.

(** [std::string::size_type] is [size_t]: 64 bits, unsigned. *)
Definition size_type_bits : Z := 64.
Definition size_type_modulus : Z := 2 ^ size_type_bits.

(** Arithmetic in [size_type] wraps around. *)
Definition wrap (z : Z) : Z := z mod size_type_modulus.

(** [std::string::npos] is [size_type(-1)]. *)
Definition npos : Z := wrap (-1).

Definition size (s : string) : Z := Z.of_nat (String.length s).

(** The characters of [s] from position [pos] on ([data() + pos]). *)
Fixpoint data_from (pos : nat) (s : string) : string :=
  match pos, s with
  | O, _ => s
  | S p, EmptyString => EmptyString
  | S p, String _ s' => data_from p s'
  end.

(** The first [n] characters of [s]. *)
Fixpoint data_upto (n : nat) (s : string) : string :=
  match n, s with
  | O, _ => EmptyString
  | S p, EmptyString => EmptyString
  | S p, String c s' => String c (data_upto p s')
  end.

(** The loop of [rfind]: compare at [pos], then step down to 0. *)
Fixpoint rfind_loop (str what : string) (pos : nat) : Z :=
  if String.prefix what (data_from pos str) then Z.of_nat pos
  else match pos with
       | O => npos
       | S p => rfind_loop str what p
       end.

(** [str.rfind(what)] with the default start position [npos]: the
    highest position at which [what] occurs in [str], or [npos]. *)
Definition rfind (str what : string) : Z :=
  if size what <=? size str
  then rfind_loop str what
         (Z.to_nat (Z.min (wrap (size str - size what)) npos))
  else npos.

(** [s.c_str()] read as a C string: the characters before the first
    NUL. *)
Fixpoint c_str (s : string) : string :=
  match s with
  | EmptyString => EmptyString
  | String c s' => if Ascii.eqb c Ascii.zero then EmptyString
                   else String c (c_str s')
  end.

(** [what] is the tail of [str]. *)
Definition is_suffix (what str : string) : Prop :=
  exists front, str = front +:+ what.

End StdString.

Import StdString.

(** ** [ends_with] (file scope) *)

Definition ends_with (str what : string) : bool :=
  let result := rfind str what in
  negb (result =? npos) && (result =? wrap (size str - size what)).

(** Modelled from the spec: [ML::format] (jml/arch/format.h) is not in the
    sources.  The spec names it as the formatting helper that builds the
    status string, and both call sites use it in the [printf] style with
    [%s] directives only: each [%s] is replaced by the next argument, which
    is a C string, and every other character is copied. *)
Fixpoint format (fmt : string) (args : list string) : string :=
  match fmt with
  | EmptyString => EmptyString
  | String c rest =>
      match c, rest with
      | "%"%char, String "s"%char rest' =>
          match args with
          | a :: args' => a +:+ format rest' args'
          | [] => format rest' []
          end
      | _, _ => String c (format rest args)
      end
  end.

(** ** Exceptions and the state of a member function *)

(** Modelled from the spec: [ML::Exception] (jml/arch/exception.h) is not
    in the sources.  The spec makes exceptions the error channel of
    [open]; an exception carries its message.  [std::ios_base::failure] is
    the exception of the standard library. *)
Inductive exception : Type :=
  | ML_Exception (what : string)
  | ios_base_failure (what : string).

(** Modelled from the spec: the two constructors of [ML::Exception] the
    code calls, one from a [std::string], one from a [printf]-style format
    with its arguments. *)
Definition Exception (msg : string) : exception := ML_Exception msg.
Definition Exception_fmt (fmt : string) (args : list string) : exception :=
  ML_Exception (format fmt args).

Inductive result (A : Type) : Type :=
  | Ok (a : A)
  | Throw (e : exception).
Arguments Ok {A} a.
Arguments Throw {A} e.

(** A computation over a state [S] that may throw.  The state reached
    when the exception is thrown is kept: the object outlives the call. *)
Definition M (S A : Type) : Type := S -> result A * S.

Definition ret {S A} (a : A) : M S A := fun st => (Ok a, st).
Definition throw {S A} (e : exception) : M S A := fun st => (Throw e, st).
Definition bind {S A B} (c : M S A) (k : A -> M S B) : M S B :=
  fun st => match c st with
            | (Ok a, st') => k a st'
            | (Throw e, st') => (Throw e, st')
            end.
Definition gets {S A} (f : S -> A) : M S A := fun st => (Ok (f st), st).
Definition modify {S} (f : S -> S) : M S unit := fun st => (Ok tt, f st).

Notation "x <- c ;; k" := (bind c (fun x => k))
  (at level 100, c at next level, right associativity).
Notation "c ;; k" := (bind c (fun _ => k))
  (at level 100, right associativity).

(** ** Pipelines of Boost.Iostreams *)

Definition openmode := Z.   (* std::ios_base::openmode, a bit mask *)

(** The parameters of a compressor: [gzip_compressor()] against
    [gzip_compressor(level)]. *)
Inductive params : Type :=
  | default_params
  | with_level (level : Z).

Inductive file_descriptor_flags : Type :=
  | default_flags        (* file_descriptor_sink(fd), Boost before 1.41 *)
  | never_close_handle.

(** What can be pushed on a filtering stream: filters and devices. *)
Inductive stage : Type :=
  | gzip_compressor (p : params)
  | bzip2_compressor (p : params)
  | lzma_compressor (p : params)
  | gzip_decompressor
  | bzip2_decompressor
  | lzma_decompressor
  | std_cout
  | std_cin
  | file_sink (path : string) (mode : openmode)
  | file_source (path : string) (mode : openmode)
  | file_descriptor_sink (fd : Z) (flags : file_descriptor_flags).

(** A [filtering_ostream] or [filtering_istream]: its stages in the order
    they were pushed. *)
Definition filtering_stream := list stage.

Definition push (chain : filtering_stream) (x : stage) : filtering_stream :=
  chain ++ [x].

Definition is_device (x : stage) : bool :=
  match x with
  | std_cout | std_cin | file_sink _ _ | file_source _ _
  | file_descriptor_sink _ _ => true
  | _ => false
  end.

Definition is_compressor (x : stage) : bool :=
  match x with
  | gzip_compressor _ | bzip2_compressor _ | lzma_compressor _ => true
  | _ => false
  end.

Definition is_decompressor (x : stage) : bool :=
  match x with
  | gzip_decompressor | bzip2_decompressor | lzma_decompressor => true
  | _ => false
  end.

(** A chain is complete when a device ends it and only filters precede
    the device. *)
Fixpoint is_complete (chain : filtering_stream) : bool :=
  match chain with
  | [] => false
  | [x] => is_device x
  | x :: rest => negb (is_device x) && is_complete rest
  end.

(** ** [std::basic_ios] *)

Module Ios.

Definition iostate := Z.
Definition goodbit : iostate := 0.
Definition badbit : iostate := 1.
Definition eofbit : iostate := 2.
Definition failbit : iostate := 4.

(** What a stream buffer pointer points to. *)
Inductive streambuf : Type :=
  | cout_rdbuf
  | cin_rdbuf
  | chain_rdbuf (chain : filtering_stream).

Record basic_ios : Type := {
  streambuf_ : option streambuf;   (* None is the null pointer *)
  streambuf_state : iostate;
  exception_ : iostate
}.

(** [init(sb)], called by the constructor of [ostream] and [istream]. *)
Definition init (sb : option streambuf) : basic_ios :=
  {| streambuf_ := sb;
     streambuf_state := match sb with Some _ => goodbit | None => badbit end;
     exception_ := goodbit |}.

Definition rdstate (b : basic_ios) : iostate := streambuf_state b.

(** [clear(state)]: the state becomes [state], with [badbit] added when
    there is no buffer; throws when a flag of the exception mask is set. *)
Definition clear (state : iostate) : M basic_ios unit :=
  modify (fun b =>
    {| streambuf_ := streambuf_ b;
       streambuf_state :=
         match streambuf_ b with
         | Some _ => state
         | None => Z.lor state badbit
         end;
       exception_ := exception_ b |}) ;;
  b <- gets id ;;
  if negb (Z.land (exception_ b) (rdstate b) =? 0)
  then throw (ios_base_failure "basic_ios::clear")
  else ret tt.

(** [exceptions(except)] sets the mask and calls [clear(rdstate())]. *)
Definition exceptions (except : iostate) : M basic_ios unit :=
  modify (fun b =>
    {| streambuf_ := streambuf_ b;
       streambuf_state := streambuf_state b;
       exception_ := except |}) ;;
  st <- gets rdstate ;;
  clear st.

(** [rdbuf(sb)] sets the buffer and calls [clear()]. *)
Definition rdbuf (sb : option streambuf) : M basic_ios unit :=
  modify (fun b =>
    {| streambuf_ := sb;
       streambuf_state := streambuf_state b;
       exception_ := exception_ b |}) ;;
  clear goodbit.

Definition bad (b : basic_ios) : bool :=
  negb (Z.land (rdstate b) badbit =? 0).
Definition eof (b : basic_ios) : bool :=
  negb (Z.land (rdstate b) eofbit =? 0).
Definition fail (b : basic_ios) : bool :=
  negb (Z.land (rdstate b) (Z.lor badbit failbit) =? 0).
(** [operator bool] (or [operator void*]) of the stream. *)
Definition operator_bool (b : basic_ios) : bool := negb (fail b).

End Ios.

Import Ios.

(** ** The platform: file devices and [errno] *)

Class Platform (World : Type) : Type := {
  (** The version of Boost the file is compiled against. *)
  BOOST_VERSION : Z;
  (** [file_sink sink(path, mode)] followed by [sink.is_open()]. *)
  file_sink_open : string -> openmode -> World -> bool * World;
  (** [file_source source(path, mode)] followed by [source.is_open()]. *)
  file_source_open : string -> openmode -> World -> bool * World;
  errno : World -> Z;
  strerror : Z -> string
}.

(** ** The two stream classes *)

(** A stream object: its [basic_ios] base and the member [stream], which
    owns the pipeline ([None] is the null pointer). *)
Record filter_ostream : Type := {
  o_ios : basic_ios;
  o_stream : option filtering_stream
}.

Record filter_istream : Type := {
  i_ios : basic_ios;
  i_stream : option filtering_stream
}.

(** The state a member function runs in: the object and the world. *)
Record env (T World : Type) : Type := {
  this : T;
  world : World
}.
Arguments this {T World} e.
Arguments world {T World} e.

(** Modelled from the spec: the default arguments of
    [open(int fd, openmode mode, ...)] are declared in filter_streams.h,
    which is not in the sources; the spec gives [compression = ""] and
    [level = -1]. *)
Definition default_compression : string := "".
Definition default_level : Z := -1.

Local Notation "a == b" := (String.eqb a b) (at level 70, no associativity).

Section Streams.

Context {World : Type} `{Platform World}.

(** Base-class calls on [this]. *)
Definition ostream_ios {A} (c : M basic_ios A)
  : M (env filter_ostream World) A :=
  fun e =>
    let (r, b) := c (o_ios (this e)) in
    (r, {| this := {| o_ios := b; o_stream := o_stream (this e) |};
           world := world e |}).

Definition istream_ios {A} (c : M basic_ios A)
  : M (env filter_istream World) A :=
  fun e =>
    let (r, b) := c (i_ios (this e)) in
    (r, {| this := {| i_ios := b; i_stream := i_stream (this e) |};
           world := world e |}).

(** [stream.reset(p)]: the pipeline owned so far is deleted, [p] is
    owned from now on. *)
Definition ostream_reset (p : filtering_stream)
  : M (env filter_ostream World) unit :=
  modify (fun e =>
    {| this := {| o_ios := o_ios (this e); o_stream := Some p |};
       world := world e |}).

Definition istream_reset (p : filtering_stream)
  : M (env filter_istream World) unit :=
  modify (fun e =>
    {| this := {| i_ios := i_ios (this e); i_stream := Some p |};
       world := world e |}).

(** Constructing a device acts on the world only. *)
Definition in_world {T A} (f : World -> A * World) : M (env T World) A :=
  fun e =>
    let (a, w) := f (world e) in
    (Ok a, {| this := this e; world := w |}).

(** *** [filter_ostream] *)

(** [filter_ostream::filter_ostream()] : [ostream(std::cout.rdbuf())]. *)
Definition filter_ostream_new : filter_ostream :=
  {| o_ios := init (Some cout_rdbuf); o_stream := None |}.

(** [filter_ostream::open(const std::string &, openmode,
    const std::string &, int)]. *)
Definition filter_ostream_open
    (file_ : string) (mode : openmode) (compression : string) (level : Z)
  : M (env filter_ostream World) unit :=
  ostream_ios (exceptions (Z.lor badbit failbit)) ;;
  let file := file_ in
  let file := if file == "" then "/dev/null" else file in
  let new_stream : filtering_stream := [] in
  new_stream <-
    (if (compression == "gz") || (compression == "gzip")
        || ((compression == "")
            && (ends_with file ".gz" || ends_with file ".gz~"))
     then
       if level =? -1
       then ret (push new_stream (gzip_compressor default_params))
       else ret (push new_stream (gzip_compressor (with_level level)))
     else if (compression == "bz2") || (compression == "bzip2")
             || ((compression == "")
                 && (ends_with file ".bz2" || ends_with file ".bz2~"))
     then
       if level =? -1
       then ret (push new_stream (bzip2_compressor default_params))
       else ret (push new_stream (bzip2_compressor (with_level level)))
     else if (compression == "lzma") || (compression == "xz")
             || ((compression == "")
                 && (ends_with file ".xz" || ends_with file ".xz~"))
     then
       if level =? -1
       then ret (push new_stream (lzma_compressor default_params))
       else ret (push new_stream (lzma_compressor (with_level level)))
     else if negb (compression == "") && negb (compression == "none")
     then throw (Exception ("unknown filter compression " +:+ compression))
     else ret new_stream) ;;
  new_stream <-
    (if file == "-"
     then ret (push new_stream std_cout)
     else
       is_open <- in_world (file_sink_open (c_str file) mode) ;;
       if negb is_open
       then throw (Exception ("couldn't open file " +:+ file))
       else ret (push new_stream (file_sink (c_str file) mode))) ;;
  ostream_reset new_stream ;;
  ostream_ios (rdbuf (Some (chain_rdbuf new_stream))).

(** [filter_ostream::open(int fd, openmode, const std::string &, int)]. *)
Definition filter_ostream_open_fd
    (fd : Z) (mode : openmode) (compression : string) (level : Z)
  : M (env filter_ostream World) unit :=
  ostream_ios (exceptions (Z.lor badbit failbit)) ;;
  let new_stream : filtering_stream := [] in
  new_stream <-
    (if (compression == "gz") || (compression == "gzip")
     then
       if level =? -1
       then ret (push new_stream (gzip_compressor default_params))
       else ret (push new_stream (gzip_compressor (with_level level)))
     else if (compression == "bz2") || (compression == "bzip2")
     then
       if level =? -1
       then ret (push new_stream (bzip2_compressor default_params))
       else ret (push new_stream (bzip2_compressor (with_level level)))
     else if (compression == "lzma") || (compression == "xz")
     then
       if level =? -1
       then ret (push new_stream (lzma_compressor default_params))
       else ret (push new_stream (lzma_compressor (with_level level)))
     else if negb (compression == "") && negb (compression == "none")
     then throw (Exception ("unknown filter compression " +:+ compression))
     else ret new_stream) ;;
  let new_stream :=
    if BOOST_VERSION <? 104100
    then push new_stream (file_descriptor_sink fd default_flags)
    else push new_stream (file_descriptor_sink fd never_close_handle) in
  ostream_reset new_stream ;;
  ostream_ios (rdbuf (Some (chain_rdbuf new_stream))).

(** [filter_ostream::close()]. *)
Definition filter_ostream_close : M (env filter_ostream World) unit :=
  ostream_ios (rdbuf None).

(** [filter_ostream::status() const]. *)
Definition filter_ostream_status (s : filter_ostream) : string :=
  if operator_bool (o_ios s) then "good"
  else format "%s%s%s"
         [ if fail (o_ios s) then " fail" else "";
           if bad (o_ios s) then " bad" else "";
           if eof (o_ios s) then " eof" else "" ].

(** A constructor runs its body on the freshly initialised object; when
    the body throws there is no object. *)
Definition construct {T} (fresh : T) (body : M (env T World) unit)
  : World -> result T * World :=
  fun w =>
    match body {| this := fresh; world := w |} with
    | (Ok _, e) => (Ok (this e), world e)
    | (Throw ex, e) => (Throw ex, world e)
    end.

(** [filter_ostream::filter_ostream(const std::string & file, openmode,
    const std::string & compression, int level)]. *)
Definition filter_ostream_new_file
    (file : string) (mode : openmode) (compression : string) (level : Z)
  : World -> result filter_ostream * World :=
  construct filter_ostream_new
    (filter_ostream_open file mode compression level).

(** [filter_ostream::filter_ostream(int fd, openmode,
    const std::string & compression, int level)]: the body is
    [open(fd, mode);]. *)
Definition filter_ostream_new_fd
    (fd : Z) (mode : openmode) (compression : string) (level : Z)
  : World -> result filter_ostream * World :=
  construct filter_ostream_new
    (filter_ostream_open_fd fd mode default_compression default_level).

(** *** [filter_istream] *)

(** [filter_istream::filter_istream()] : [istream(std::cin.rdbuf())]. *)
Definition filter_istream_new : filter_istream :=
  {| i_ios := init (Some cin_rdbuf); i_stream := None |}.

(** [filter_istream::open(const std::string &, openmode)]. *)
Definition filter_istream_open (file_ : string) (mode : openmode)
  : M (env filter_istream World) unit :=
  let file := file_ in
  let file := if file == "" then "/dev/null" else file in
  let new_stream : filtering_stream := [] in
  let gzip := ends_with file ".gz" || ends_with file ".gz~" in
  let bzip2 := ends_with file ".bz2" || ends_with file ".bz2~" in
  let lzma := ends_with file ".xz" || ends_with file ".xz~" in
  let new_stream :=
    if gzip then push new_stream gzip_decompressor else new_stream in
  let new_stream :=
    if bzip2 then push new_stream bzip2_decompressor else new_stream in
  let new_stream :=
    if lzma then push new_stream lzma_decompressor else new_stream in
  new_stream <-
    (if file == "-"
     then ret (push new_stream std_cin)
     else
       is_open <- in_world (file_source_open (c_str file) mode) ;;
       if negb is_open
       then
         e <- gets world ;;
         throw (Exception_fmt "stream open failed for file %s: %s"
                  [c_str file_; strerror (errno e)])
       else ret (push new_stream (file_source (c_str file) mode))) ;;
  istream_reset new_stream ;;
  istream_ios (rdbuf (Some (chain_rdbuf new_stream))).

(** [filter_istream::filter_istream(const std::string & file,
    openmode)]. *)
Definition filter_istream_new_file (file : string) (mode : openmode)
  : World -> result filter_istream * World :=
  construct filter_istream_new (filter_istream_open file mode).

(** [filter_istream::close()]. *)
Definition filter_istream_close : M (env filter_istream World) unit :=
  istream_ios (rdbuf None).

End Streams.

(** ** A reference platform

    A small file system on which the statements are exercised: named files
    with their contents, a set of paths that cannot be written, and the
    last error number.  [/dev/null] always opens and stores nothing. *)

Module RefPlatform.

Record fs : Type := {
  files : gmap string string;
  read_only : gset string;
  last_errno : Z
}.

Definition ENOENT : Z := 2.
Definition EACCES : Z := 13.

(** [std::ios_base::app] *)
Definition ios_app : openmode := 1.
(** [std::ios_base::in] and [std::ios_base::out] *)
Definition ios_in : openmode := 8.
Definition ios_out : openmode := 16.

Definition set_errno (e : Z) (w : fs) : fs :=
  {| files := files w; read_only := read_only w; last_errno := e |}.

(** Opening for writing creates the file; it keeps the contents of an
    existing file in append mode only. *)
Definition sink_open (path : string) (mode : openmode) (w : fs) : bool * fs :=
  if path == "" then (false, set_errno ENOENT w)
  else if path == "/dev/null" then (true, w)
  else if bool_decide (path ∈ read_only w) then (false, set_errno EACCES w)
  else
    let kept :=
      if negb (Z.land mode ios_app =? 0)
      then default "" (files w !! path)
      else "" in
    (true, {| files := <[path := kept]> (files w);
              read_only := read_only w;
              last_errno := last_errno w |}).

Definition source_open (path : string) (mode : openmode) (w : fs)
  : bool * fs :=
  if path == "/dev/null" then (true, w)
  else match files w !! path with
       | Some _ => (true, w)
       | None => (false, set_errno ENOENT w)
       end.

Definition error_text (e : Z) : string :=
  if e =? ENOENT then "No such file or directory"
  else if e =? EACCES then "Permission denied"
  else "Unknown error".

#[export] Instance platform : Platform fs := {|
  BOOST_VERSION := 104900;
  file_sink_open := sink_open;
  file_source_open := source_open;
  errno := last_errno;
  strerror := error_text
|}.

(** A world with two files and one protected path. *)
Definition w0 : fs :=
  {| files := <[ "data.gz" := "compressed" ]> {[ "notes.txt" := "hello" ]};
     read_only := {[ "locked.txt" ]};
     last_errno := 0 |}.

End RefPlatform.

(** ** Vocabulary of the statements *)

(** The compression names of the interface. *)
Definition compression_vocabulary : list string :=
  [""; "none"; "gz"; "gzip"; "bz2"; "bzip2"; "lzma"; "xz"].

(** The suffixes of the file-name conventions. *)
Definition suffix_table : list string :=
  [".gz"; ".gz~"; ".bz2"; ".bz2~"; ".xz"; ".xz~"].

(** The two open-time errors, by the message the code gives them. *)
Definition UnknownCodec (name : string) : exception :=
  ML_Exception ("unknown filter compression " +:+ name).

Definition OpenFailed (file : string) : exception :=
  ML_Exception ("couldn't open file " +:+ file).

(** The parameters a compressor is built with for a given [level]. *)
Definition params_of (level : Z) : params :=
  if level =? -1 then default_params else with_level level.

(** An output stream right after a successful [open]: the chain is owned
    by [stream] and is the active buffer, the state is good. *)
Definition bound_ostream (chain : filtering_stream) : filter_ostream :=
  {| o_ios := {| streambuf_ := Some (chain_rdbuf chain);
                 streambuf_state := goodbit;
                 exception_ := Z.lor badbit failbit |};
     o_stream := Some chain |}.

(** The same for an input stream, whose exception mask [open] leaves
    alone. *)
Definition bound_istream (except : iostate) (chain : filtering_stream)
  : filter_istream :=
  {| i_ios := {| streambuf_ := Some (chain_rdbuf chain);
                 streambuf_state := goodbit;
                 exception_ := except |};
     i_stream := Some chain |}.

(** The sink [open(int fd, ...)] pushes, which depends on the version of
    Boost. *)
Definition descriptor_sink {World : Type} `{Platform World} (fd : Z) : stage :=
  if BOOST_VERSION <? 104100
  then file_descriptor_sink fd default_flags
  else file_descriptor_sink fd never_close_handle.

(** The sink of [file] can be attached in the world [w], which leaves the
    world [w']: the standard output needs no file, any other name is opened
    as a file sink. *)
Definition sink_opens {World : Type} `{Platform World}
    (file : string) (mode : openmode) (w w' : World) : Prop :=
  let name := if file == "" then "/dev/null" else file in
  if name == "-" then w' = w
  else file_sink_open (c_str name) mode w = (true, w').

(** [status()] as the interface describes it: "good" when no flag is set,
    otherwise the names of the flags that are set, in the order fail, bad,
    eof, joined by single spaces. *)
Definition status_as_described (s : filter_ostream) : string :=
  let st := rdstate (o_ios s) in
  let names :=
    (if Z.testbit st 2 then ["fail"] else [])
    ++ (if Z.testbit st 0 then ["bad"] else [])
    ++ (if Z.testbit st 1 then ["eof"] else []) in
  match names with
  | [] => "good"
  | _ => String.concat " " names
  end.

(** An output stream with the given state flags. *)
Definition ostream_in_state (st : iostate) : filter_ostream :=
  {| o_ios := {| streambuf_ := Some cout_rdbuf;
                 streambuf_state := st;
                 exception_ := goodbit |};
     o_stream := None |}.

(** The compressor stages of the pipeline an output stream owns. *)
Definition compressors (s : filter_ostream) : list stage :=
  filter is_compressor (default [] (o_stream s)).

(** The decompressor stages of the pipeline an input stream owns. *)
Definition decompressors (s : filter_istream) : list stage :=
  filter is_decompressor (default [] (i_stream s)).

(** The chain installed as the active buffer, if any. *)
Definition active_chain (b : basic_ios) : option filtering_stream :=
  match streambuf_ b with
  | Some (chain_rdbuf chain) => Some chain
  | _ => None
  end.

(** A stream holds a valid pipeline or none: the pipeline it owns, if
    any, is complete, and a chain that is the active buffer is the one the
    stream owns. *)
Definition pipeline_valid
    (owned : option filtering_stream) (b : basic_ios) : Prop :=
  (forall chain, owned = Some chain -> is_complete chain = true) /\
  (forall chain, active_chain b = Some chain -> owned = Some chain).

(** A chain made of filters only: any device completes it. *)
Definition open_chain (chain : filtering_stream) : Prop :=
  forall d, is_device d = true -> is_complete (push chain d) = true.

(** The stream [e] owns the pipeline [owned] and has the buffer [sb]. *)
Definition ostream_holds {World : Type}
    (owned : option filtering_stream) (sb : option streambuf)
    (e : env filter_ostream World) : Prop :=
  o_stream (this e) = owned /\ streambuf_ (o_ios (this e)) = sb.

(** A triple for a computation that may throw: from a state in [P] it
    either returns [a] in a state where [Q a] holds, or throws in a state
    where [E] holds. *)
Definition hoare {S A : Type}
    (P : S -> Prop) (c : M S A) (Q : A -> S -> Prop) (E : S -> Prop) : Prop :=
  forall st, P st ->
    match c st with
    | (Ok a, st') => Q a st'
    | (Throw _, st') => E st'
    end.

(** [part] occurs in [s]. *)
Definition is_infix (part s : string) : Prop :=
  exists front back, s = front +:+ part +:+ back.

(** The character [c] occurs in [s]. *)
Fixpoint occurs (c : ascii) (s : string) : bool :=
  match s with
  | EmptyString => false
  | String d s' => Ascii.eqb d c || occurs c s'
  end.

(** A [std::string] of three characters whose second one is NUL. *)
Definition name_with_nul : string :=
  String "a" (String Ascii.zero (String "b" EmptyString)).

(** ** Vocabulary of the further properties *)

(** The stream [open] works on once [exceptions] has run: the exception
    mask is set, and a stream without a buffer has [badbit]. *)
Definition entered (s : filter_ostream) : filter_ostream :=
  {| o_ios :=
       {| streambuf_ := streambuf_ (o_ios s);
          streambuf_state :=
            match streambuf_ (o_ios s) with
            | Some _ => streambuf_state (o_ios s)
            | None => Z.lor (streambuf_state (o_ios s)) badbit
            end;
          exception_ := Z.lor badbit failbit |};
     o_stream := o_stream s |}.

(** A stream is usable when it has a buffer and neither [badbit] nor
    [failbit]. *)
Definition usable (b : basic_ios) : bool :=
  match streambuf_ b with
  | Some _ => negb (fail b)
  | None => false
  end.

(** The stream [close()] leaves: no buffer, [badbit] alone. *)
Definition closed_ios (b : basic_ios) : basic_ios :=
  {| streambuf_ := None;
     streambuf_state := badbit;
     exception_ := exception_ b |}.


(** The three compression formats. *)
Inductive codec : Type := gzip | bzip2 | lzma.

(** The format a filter stage belongs to. *)
Definition family (x : stage) : option codec :=
  match x with
  | gzip_compressor _ | gzip_decompressor => Some gzip
  | bzip2_compressor _ | bzip2_decompressor => Some bzip2
  | lzma_compressor _ | lzma_decompressor => Some lzma
  | _ => None
  end.


(** The decompressors [filter_istream::open] pushes for the normalized
    name [name], one test after the other. *)
Definition input_filters (name : string) : filtering_stream :=
  let new_stream : filtering_stream := [] in
  let new_stream :=
    if ends_with name ".gz" || ends_with name ".gz~"
    then push new_stream gzip_decompressor else new_stream in
  let new_stream :=
    if ends_with name ".bz2" || ends_with name ".bz2~"
    then push new_stream bzip2_decompressor else new_stream in
  if ends_with name ".xz" || ends_with name ".xz~"
  then push new_stream lzma_decompressor else new_stream.

(** The source of [file] can be attached in the world [w], which leaves
    the world [w']. *)
Definition source_opens {World : Type} `{Platform World}
    (file : string) (mode : openmode) (w w' : World) : Prop :=
  let name := if file == "" then "/dev/null" else file in
  if name == "-" then w' = w
  else file_source_open (c_str name) mode w = (true, w').

(** An output pipeline in its intended shape: at most one compressor,
    then the device [d]. *)
Definition output_shape (chain : filtering_stream) (d : stage) : Prop :=
  exists filters,
    chain = filters ++ [d] /\
    forallb is_compressor filters = true /\
    (List.length filters <= 1)%nat.

(** ** Tactics: running a member function symbolically *)

Ltac expose :=
  cbv beta iota zeta delta
      [filter_ostream_new_file filter_ostream_new_fd filter_istream_new_file
       construct filter_ostream_open filter_ostream_open_fd
       filter_istream_open filter_ostream_close filter_istream_close
       bind ret throw gets modify in_world ostream_ios istream_ios
       ostream_reset istream_reset exceptions clear rdbuf rdstate
       this world o_ios o_stream i_ios i_stream streambuf_ streambuf_state
       exception_ filter_ostream_new filter_istream_new init id push
       Exception Exception_fmt default_compression default_level
       bound_ostream bound_istream UnknownCodec OpenFailed params_of
       negb andb orb app fst snd] in *.

Ltac is_literal s :=
  lazymatch s with
  | EmptyString => idtac
  | String _ ?rest => is_literal rest
  end.

Ltac decide_atom b :=
  let v := eval vm_compute in b in
  lazymatch v with
  | true => change b with true in *
  | false => change b with false in *
  | _ => destruct b eqn:?
  end.

(** The innermost scrutinee that blocks the evaluation. *)
Ltac atom b :=
  lazymatch b with
  | (if ?c then _ else _) => atom c
  | (if ?c then _ else _) _ => atom c
  | (let (_, _) := ?x in _) => atom x
  | (match ?x with Ok _ => _ | Throw _ => _ end) => atom x
  | (match ?x with Some _ => _ | None => _ end) => atom x
  | _ => decide_atom b
  end.

Ltac step :=
  match goal with
  | |- context [c_str ?s] =>
      is_literal s;
      let v := eval vm_compute in (c_str s) in change (c_str s) with v
  | |- context [String.append ?a ?b] =>
      is_literal a; is_literal b;
      let v := eval vm_compute in (String.append a b) in
      change (String.append a b) with v
  | |- context [if ?b then _ else _] => atom b
  | |- context [let (_, _) := ?x in _] => atom x
  | |- context [match ?x with Some _ => _ | None => _ end] => atom x
  | |- context [match ?x with Ok _ => _ | Throw _ => _ end] => atom x
  end; cbv beta iota.

Ltac run := expose; repeat step.

(** ** Theorems *)

Section EndsWith.

Lemma append_nil_l (s : string) : "" +:+ s = s.
Proof. reflexivity. Qed.

Lemma append_cons c (s t : string) : String c s +:+ t = String c (s +:+ t).
Proof. reflexivity. Qed.

Lemma append_nil_r (s : string) : s +:+ "" = s.
Proof.
  induction s as [|c s IH]; [reflexivity|].
  rewrite append_cons. now f_equal.
Qed.

Lemma append_assoc (s t u : string) : (s +:+ t) +:+ u = s +:+ t +:+ u.
Proof.
  induction s as [|c s IH]; [reflexivity|].
  rewrite !append_cons. now f_equal.
Qed.

Lemma length_append (s t : string) :
  String.length (s +:+ t) = (String.length s + String.length t)%nat.
Proof.
  induction s as [|c s IH]; [reflexivity|].
  rewrite append_cons. simpl. lia.
Qed.

Lemma length_zero_empty (s : string) : String.length s = 0%nat -> s = "".
Proof. destruct s; [reflexivity|discriminate]. Qed.

Lemma length_data_from pos s :
  String.length (data_from pos s) = (String.length s - pos)%nat.
Proof.
  revert s; induction pos as [|p IH]; intros [|c s]; simpl; auto with lia.
Qed.

Lemma data_upto_from pos s : data_upto pos s +:+ data_from pos s = s.
Proof.
  revert s; induction pos as [|p IH]; intros [|c s]; try reflexivity.
  simpl. rewrite append_cons. f_equal. apply IH.
Qed.

Lemma data_from_append (front s : string) :
  data_from (String.length front) (front +:+ s) = s.
Proof.
  induction front as [|c front IH]; [reflexivity|].
  rewrite append_cons. simpl. exact IH.
Qed.

Lemma prefix_refl (s : string) : String.prefix s s = true.
Proof.
  induction s as [|c s IH]; [reflexivity|].
  simpl. destruct (ascii_dec c c); [exact IH|congruence].
Qed.

Lemma prefix_append (s t : string) :
  String.prefix s t = true -> exists rest, t = s +:+ rest.
Proof.
  revert t; induction s as [|c s IH]; intros t H.
  - exists t. reflexivity.
  - destruct t as [|d t]; [discriminate|].
    simpl in H. destruct (ascii_dec c d) as [->|]; [|discriminate].
    destruct (IH _ H) as [rest ->]. exists rest. reflexivity.
Qed.

Lemma rfind_loop_hit str what pos :
  String.prefix what (data_from pos str) = true ->
  rfind_loop str what pos = Z.of_nat pos.
Proof. intros H. destruct pos; simpl in *; now rewrite H. Qed.

Lemma rfind_loop_found str what pos :
  rfind_loop str what pos = npos \/
  exists p, rfind_loop str what pos = Z.of_nat p /\ (p <= pos)%nat /\
            String.prefix what (data_from p str) = true.
Proof.
  induction pos as [|pos IH].
  - simpl. destruct (String.prefix what str) eqn:E; [|now left].
    right. exists 0%nat. auto.
  - cbn [rfind_loop].
    destruct (String.prefix what (data_from (S pos) str)) eqn:E.
    + right. exists (S pos). auto.
    + destruct IH as [IH|(p & Hp & Hle & Hpre)]; [now left|].
      right. exists p. auto with lia.
Qed.

Lemma npos_value : npos = 18446744073709551615.
Proof. reflexivity. Qed.

Lemma is_suffix_length what str :
  is_suffix what str -> (String.length what <= String.length str)%nat.
Proof. intros [front ->]. rewrite length_append. lia. Qed.

(** On a string of representable size, [ends_with] decides [is_suffix]. *)
Lemma ends_with_is_suffix str what :
  size str < npos ->
  ends_with str what = true <-> is_suffix what str.
Proof.
  intros Hsz. unfold ends_with, rfind, size in *. rewrite npos_value in *.
  unfold wrap, size_type_modulus, size_type_bits in *.
  change (2 ^ 64) with 18446744073709551616 in *.
  split.
  - intros H. apply andb_true_iff in H as [Hn He].
    apply negb_true_iff, Z.eqb_neq in Hn. apply Z.eqb_eq in He.
    destruct (Z.of_nat (String.length what) <=? Z.of_nat (String.length str))
      eqn:Hle; [|congruence].
    apply Z.leb_le in Hle.
    rewrite Z.mod_small in * by lia.
    rewrite Z.min_l in * by lia.
    destruct (rfind_loop_found str what
                (Z.to_nat (Z.of_nat (String.length str)
                           - Z.of_nat (String.length what))))
      as [Hf|(p & Hp & Hlep & Hpre)]; [rewrite npos_value in Hf; congruence|].
    rewrite Hp in He.
    apply prefix_append in Hpre as [rest Hrest].
    assert (Hlen : String.length (data_from p str)
                   = (String.length what + String.length rest)%nat)
      by (rewrite Hrest; apply length_append).
    rewrite length_data_from in Hlen.
    assert (rest = "") as -> by (apply length_zero_empty; lia).
    rewrite append_nil_r in Hrest.
    exists (data_upto p str). rewrite <- Hrest. symmetry.
    apply data_upto_from.
  - intros [front ->]. rewrite length_append in *.
    assert (Hle : (Z.of_nat (String.length what)
                   <=? Z.of_nat (String.length front + String.length what))
                  = true) by (apply Z.leb_le; lia).
    rewrite Hle.
    rewrite Z.mod_small by lia. rewrite Z.min_l by lia.
    replace (Z.to_nat _) with (String.length front) by lia.
    rewrite rfind_loop_hit
      by (rewrite data_from_append; apply prefix_refl).
    apply andb_true_iff. split.
    + apply negb_true_iff, Z.eqb_neq. lia.
    + apply Z.eqb_eq. lia.
Qed.

End EndsWith.

(** The message of the exception [filter_istream::open] throws. *)
Lemma format_open_failed (name reason : string) :
  format "stream open failed for file %s: %s" [name; reason]
  = "stream open failed for file " +:+ name +:+ ": " +:+ reason.
Proof.
  cbv beta iota delta [format]. rewrite append_nil_r. reflexivity.
Qed.


(** ** Codec selection on output *)

Section OutputCodec.

Context {World : Type} `{Platform World}.

(** C3. Opening "out.gz" for output with an empty compression name pushes
    one gzip compressor, built with the given level, before the file sink;
    with the compression name "none" and the same file name the pipeline
    is the file sink alone, and no unknown-codec error is raised.  In both
    cases the only possible failure is that of the file sink. *)
Theorem explicit_none_overrides_suffix (mode : openmode) (level : Z) (w : World) :
  filter_ostream_new_file "out.gz" mode "" level w =
    (let (is_open, w') := file_sink_open "out.gz" mode w in
     if is_open
     then (Ok (bound_ostream [gzip_compressor (params_of level);
                              file_sink "out.gz" mode]), w')
     else (Throw (OpenFailed "out.gz"), w'))
  /\
  filter_ostream_new_file "out.gz" mode "none" level w =
    (let (is_open, w') := file_sink_open "out.gz" mode w in
     if is_open
     then (Ok (bound_ostream [file_sink "out.gz" mode]), w')
     else (Throw (OpenFailed "out.gz"), w')).
Proof. split; run; reflexivity. Qed.

Lemma outside_vocabulary (compression : string) :
  ~ In compression compression_vocabulary ->
  (compression == "") = false /\ (compression == "none") = false /\
  (compression == "gz") = false /\ (compression == "gzip") = false /\
  (compression == "bz2") = false /\ (compression == "bzip2") = false /\
  (compression == "lzma") = false /\ (compression == "xz") = false.
Proof.
  intros Hout. repeat split; apply String.eqb_neq; intros ->;
    apply Hout; simpl; tauto.
Qed.

(** C2. A compression name outside the vocabulary makes the file-name
    constructor throw the unknown-codec exception for every file name, in a
    world that is exactly the one before the call: no device was opened.
    The same holds for [open] on an existing stream, which owns the same
    pipeline and has the same buffer afterwards; there the exception is the
    unknown-codec one whenever the stream has a buffer and is not already
    in a failed state. *)
Theorem unknown_codec_before_device
    (file : string) (mode : openmode) (compression : string) (level : Z)
    (w : World) :
  ~ In compression compression_vocabulary ->
  filter_ostream_new_file file mode compression level w
    = (Throw (UnknownCodec compression), w)
  /\
  forall s : filter_ostream,
    exists ex s',
      filter_ostream_open file mode compression level
        {| this := s; world := w |}
        = (Throw ex, {| this := s'; world := w |})
      /\ o_stream s' = o_stream s
      /\ streambuf_ (o_ios s') = streambuf_ (o_ios s)
      /\ (streambuf_ (o_ios s) <> None -> fail (o_ios s) = false ->
          ex = UnknownCodec compression).
Proof.
  intros Hout.
  destruct (outside_vocabulary _ Hout)
    as (E0 & E1 & E2 & E3 & E4 & E5 & E6 & E7).
  split.
  - expose. rewrite E0, E1, E2, E3, E4, E5, E6, E7. repeat step. reflexivity.
  - intros [[sb st ex] str]. unfold fail.
    expose. rewrite E0, E1, E2, E3, E4, E5, E6, E7. repeat step;
      try rewrite Z.land_comm in Heqb;
      (eexists _, _; split; [reflexivity|]; split; [reflexivity|];
       split; [reflexivity|]; intros; congruence).
Qed.

End OutputCodec.

(** ** The descriptor-based overload *)

Section Descriptor.

Context {World : Type} `{Platform World}.

(** C1. The descriptor-based constructor builds the same stream whatever
    compression name and level it is given: the descriptor sink alone.
    [open(fd, mode, compression, level)] called on a fresh stream does
    what the file-name overload does with an explicit name: the names
    "gz" and "gzip" push a gzip compressor, "bz2" and "bzip2" a bzip2
    compressor, "lzma" and "xz" an lzma compressor, each built with the
    level unless it is -1, "" and "none" push none, and "bogus" throws the
    unknown-codec exception.  So the constructor called with "gz" and
    level 9, or with "bogus", differs from [open] called directly. *)
Theorem descriptor_constructor_ignores_codec
    (fd : Z) (mode : openmode) (compression : string) (level : Z)
    (w : World) :
  let fresh := {| this := filter_ostream_new; world := w |} in
  let opened chain := (Ok tt, {| this := bound_ostream chain; world := w |}) in
  filter_ostream_new_fd fd mode compression level w
    = (Ok (bound_ostream [descriptor_sink fd]), w)
  /\
  filter_ostream_new_fd fd mode "gz" 9 w
    = (Ok (bound_ostream [descriptor_sink fd]), w)
  /\
  filter_ostream_open_fd fd mode "gz" 9 fresh
    = opened [gzip_compressor (with_level 9); descriptor_sink fd]
  /\
  filter_ostream_new_fd fd mode "bogus" (-1) w
    = (Ok (bound_ostream [descriptor_sink fd]), w)
  /\
  filter_ostream_open_fd fd mode "bogus" (-1) fresh
    = (Throw (UnknownCodec "bogus"),
       {| this := {| o_ios := {| streambuf_ := Some cout_rdbuf;
                                 streambuf_state := goodbit;
                                 exception_ := Z.lor badbit failbit |};
                     o_stream := None |};
          world := w |})
  /\
  (filter_ostream_open_fd fd mode "gz" level fresh
     = opened [gzip_compressor (params_of level); descriptor_sink fd] /\
   filter_ostream_open_fd fd mode "gzip" level fresh
     = opened [gzip_compressor (params_of level); descriptor_sink fd] /\
   filter_ostream_open_fd fd mode "bz2" level fresh
     = opened [bzip2_compressor (params_of level); descriptor_sink fd] /\
   filter_ostream_open_fd fd mode "bzip2" level fresh
     = opened [bzip2_compressor (params_of level); descriptor_sink fd] /\
   filter_ostream_open_fd fd mode "lzma" level fresh
     = opened [lzma_compressor (params_of level); descriptor_sink fd] /\
   filter_ostream_open_fd fd mode "xz" level fresh
     = opened [lzma_compressor (params_of level); descriptor_sink fd] /\
   filter_ostream_open_fd fd mode "" level fresh
     = opened [descriptor_sink fd] /\
   filter_ostream_open_fd fd mode "none" level fresh
     = opened [descriptor_sink fd]).
Proof.
  cbv zeta. unfold descriptor_sink. repeat split; run; reflexivity.
Qed.

End Descriptor.

(** ** File-name normalization *)

Section Normalization.

Context {World : Type} `{Platform World}.

(** C8. In both directions the empty file name is opened as the file
    "/dev/null", and "-" binds the pipeline to the standard stream without
    opening any file.  For output the two names "" and "/dev/null" give
    the same result for every compression name; with "-" the world is
    unchanged and a pipeline, when one is built, ends in [std::cout].  For
    input the device is the file source "/dev/null", and "-" always gives
    the pipeline made of [std::cin] alone. *)
Theorem file_name_normalization
    (mode : openmode) (compression : string) (level : Z) (w : World) :
  filter_ostream_new_file "" mode compression level w
    = filter_ostream_new_file "/dev/null" mode compression level w
  /\
  filter_ostream_new_file "" mode "" level w =
    (let (is_open, w') := file_sink_open "/dev/null" mode w in
     if is_open
     then (Ok (bound_ostream [file_sink "/dev/null" mode]), w')
     else (Throw (OpenFailed "/dev/null"), w'))
  /\
  filter_ostream_new_file "-" mode "" level w
    = (Ok (bound_ostream [std_cout]), w)
  /\
  (exists r,
     filter_ostream_new_file "-" mode compression level w = (r, w) /\
     (r = Throw (UnknownCodec compression) \/
      exists filters,
        r = Ok (bound_ostream (filters ++ [std_cout])) /\
        forallb is_compressor filters = true))
  /\
  filter_istream_new_file "" mode w =
    (let (is_open, w') := file_source_open "/dev/null" mode w in
     if is_open
     then (Ok (bound_istream goodbit [file_source "/dev/null" mode]), w')
     else (Throw (ML_Exception ("stream open failed for file : "
                                +:+ strerror (errno w'))), w'))
  /\
  filter_istream_new_file "-" mode w
    = (Ok (bound_istream goodbit [std_cin]), w).
Proof.
  split; [|split; [|split; [|split; [|split]]]].
  - expose. reflexivity.
  - run; reflexivity.
  - run; reflexivity.
  - expose. repeat step;
      (eexists; split; [reflexivity|]);
      first [ left; reflexivity
            | right; exists []; split; reflexivity
            | right; eexists [_]; split; reflexivity ].
  - run; rewrite ?format_open_failed; reflexivity.
  - run; reflexivity.
Qed.

End Normalization.

(** ** Suffix inference *)

Section SuffixInference.

Context {World : Type} `{Platform World}.

Lemma data_from_add (n k : nat) (s : string) :
  data_from (n + k) s = data_from k (data_from n s).
Proof.
  revert s; induction n as [|n IH]; intros s; [reflexivity|].
  destruct s as [|c s]; simpl; [now destruct k|apply IH].
Qed.

(** Two tails of one string: the shorter is a tail of the longer. *)
Lemma two_suffixes (a b s : string) :
  is_suffix a s -> is_suffix b s ->
  (String.length a <= String.length b)%nat ->
  a = data_from (String.length b - String.length a) b.
Proof.
  intros [fa Ha] [fb Hb] Hle.
  assert (Hlen : String.length fa
                 = (String.length fb
                    + (String.length b - String.length a))%nat).
  { assert (E : String.length (fa +:+ a) = String.length (fb +:+ b))
      by congruence.
    rewrite !length_append in E. lia. }
  rewrite <- (data_from_append fa a) at 1.
  rewrite Hlen, <- Ha, Hb, data_from_add, data_from_append. reflexivity.
Qed.

(** Two suffixes of the table that belong to different families cannot
    both end a name. *)
Ltac clash :=
  match goal with
  | Ha : is_suffix ?a ?s, Hb : is_suffix ?b ?s |- _ =>
      let X := fresh in
      pose proof (two_suffixes a b s Ha Hb ltac:(simpl; lia)) as X;
      vm_compute in X; discriminate X
  end.

Ltac suffix_cases Hsz :=
  repeat match goal with
  | |- context [ends_with ?f ?x] =>
      let E := fresh "E" in
      destruct (ends_with f x) eqn:E;
      [apply (ends_with_is_suffix f x Hsz) in E|]
  end.

Lemma suffix_families_exclusive (file : string) :
  size file < npos ->
  let gzip := ends_with file ".gz" || ends_with file ".gz~" in
  let bzip2 := ends_with file ".bz2" || ends_with file ".bz2~" in
  let lzma := ends_with file ".xz" || ends_with file ".xz~" in
  gzip && bzip2 = false /\ gzip && lzma = false /\ bzip2 && lzma = false.
Proof.
  intros Hsz. cbv zeta.
  suffix_cases Hsz; try clash; repeat split; reflexivity.
Qed.

Lemma size_dev_null : size "/dev/null" < npos.
Proof. reflexivity. Qed.

(** No name ends in two distinct suffixes of the table. *)
Lemma table_suffixes_exclusive (file a b : string) :
  In a suffix_table -> In b suffix_table -> a <> b ->
  ~ (is_suffix a file /\ is_suffix b file).
Proof.
  intros Ha Hb Hne [Hsa Hsb]. simpl in Ha, Hb.
  repeat (destruct Ha as [<-|Ha]; [|]); try contradiction;
    repeat (destruct Hb as [<-|Hb]; [|]); try contradiction;
    try congruence; clash.
Qed.

(** C10. For every file name at most one of the three suffix tests of
    [filter_istream::open] holds, because no name ends in two distinct
    suffixes of the table; so a pipeline that [open] installs has at most
    one decompressor stage. *)
Theorem at_most_one_decompressor (file : string) :
  size file < npos ->
  (let gzip := ends_with file ".gz" || ends_with file ".gz~" in
   let bzip2 := ends_with file ".bz2" || ends_with file ".bz2~" in
   let lzma := ends_with file ".xz" || ends_with file ".xz~" in
   gzip && bzip2 = false /\ gzip && lzma = false /\ bzip2 && lzma = false)
  /\
  (forall a b, In a suffix_table -> In b suffix_table -> a <> b ->
     ends_with file a && ends_with file b = false)
  /\
  forall (mode : openmode) (e e' : env filter_istream World),
    filter_istream_open file mode e = (Ok tt, e') ->
    (List.length (decompressors (this e')) <= 1)%nat.
Proof.
  intros Hsz. split; [exact (suffix_families_exclusive file Hsz)|]. split.
  { intros a b Ha Hb Hne.
    destruct (ends_with file a) eqn:Ea; [|reflexivity].
    destruct (ends_with file b) eqn:Eb; [|reflexivity].
    apply (ends_with_is_suffix file _ Hsz) in Ea, Eb.
    destruct (table_suffixes_exclusive file a b Ha Hb Hne (conj Ea Eb)). }
  intros mode e e' Hopen.
  assert (Hn : size (if file == "" then "/dev/null" else file) < npos)
    by (destruct (file == ""); [exact size_dev_null|exact Hsz]).
  revert Hopen. expose.
  set (name := if file == "" then "/dev/null" else file) in *.
  suffix_cases Hn; try clash; repeat step;
    intros Hopen; inversion Hopen; subst; unfold decompressors; simpl; lia.
Qed.

(** C6. The suffix test holds exactly when the suffix is the tail of the
    name, for every name and every suffix, those of the table included.
    So "archive.gz~" and "archive.tar.gz" pass a test of the gzip family,
    and "archive.gzip" passes neither: opened for output without a
    compression name, the first two get a gzip compressor and the third
    gets none. *)
Theorem suffix_test_exact (name suffix : string) :
  size name < npos ->
  (ends_with name suffix = true <-> is_suffix suffix name)
  /\
  (ends_with "archive.gz~" ".gz~" = true /\
   ends_with "archive.tar.gz" ".gz" = true /\
   ends_with "archive.gzip" ".gz" = false /\
   ends_with "archive.gzip" ".gz~" = false)
  /\
  forall (mode : openmode) (level : Z) (w w' : World),
    (file_sink_open "archive.gz~" mode w = (true, w') ->
     filter_ostream_new_file "archive.gz~" mode "" level w
       = (Ok (bound_ostream [gzip_compressor (params_of level);
                             file_sink "archive.gz~" mode]), w'))
    /\
    (file_sink_open "archive.tar.gz" mode w = (true, w') ->
     filter_ostream_new_file "archive.tar.gz" mode "" level w
       = (Ok (bound_ostream [gzip_compressor (params_of level);
                             file_sink "archive.tar.gz" mode]), w'))
    /\
    (file_sink_open "archive.gzip" mode w = (true, w') ->
     filter_ostream_new_file "archive.gzip" mode "" level w
       = (Ok (bound_ostream [file_sink "archive.gzip" mode]), w')).
Proof.
  intros Hsz. split; [exact (ends_with_is_suffix name suffix Hsz)|].
  split; [repeat split; reflexivity|].
  intros mode level w w'.
  repeat split; intros Hopen; run; simplify_eq; reflexivity.
Qed.

(** What [filter_ostream::open] pushes when no compression name is given,
    in terms of the suffix tests. *)
Lemma inferred_compressor
    (file : string) (mode : openmode) (level : Z) (w w' : World) :
  sink_opens file mode w w' ->
  exists s,
    filter_ostream_new_file file mode "" level w = (Ok s, w') /\
    compressors s =
      let name := if file == "" then "/dev/null" else file in
      if ends_with name ".gz" || ends_with name ".gz~"
      then [gzip_compressor (params_of level)]
      else if ends_with name ".bz2" || ends_with name ".bz2~"
      then [bzip2_compressor (params_of level)]
      else if ends_with name ".xz" || ends_with name ".xz~"
      then [lzma_compressor (params_of level)]
      else [].
Proof.
  unfold sink_opens. cbv zeta. intros Hopen. expose.
  set (name := if file == "" then "/dev/null" else file) in *.
  destruct (name == "-");
  repeat match goal with
  | |- context [ends_with name ?x] => destruct (ends_with name x)
  end;
  destruct (level =? -1); cbv beta iota;
  repeat step; simplify_eq;
  (eexists; split; [reflexivity|reflexivity]).
Qed.

(** What it pushes for the compression name "none": nothing. *)
Lemma none_compressor
    (file : string) (mode : openmode) (level : Z) (w w' : World) :
  sink_opens file mode w w' ->
  exists s,
    filter_ostream_new_file file mode "none" level w = (Ok s, w') /\
    compressors s = [].
Proof.
  unfold sink_opens. cbv zeta. intros Hopen. expose.
  set (name := if file == "" then "/dev/null" else file) in *.
  destruct (name == "-"); repeat step; simplify_eq;
  (eexists; split; [reflexivity|reflexivity]).
Qed.

Lemma no_suffix_of_empty (x : string) :
  x <> "" -> ~ is_suffix x "".
Proof.
  intros Hx Hs. apply is_suffix_length in Hs.
  destruct x; [congruence|simpl in Hs; lia].
Qed.

(** C4, as the code has it.  With the compression name "none" no
    compressor is pushed, whatever the file name.  With the empty
    compression name the compressor is inferred from the tail of the file
    name: gzip for ".gz" and ".gz~", bzip2 for ".bz2" and ".bz2~", lzma
    for ".xz" and ".xz~", and none only when the name ends in no suffix
    of the table. *)
Theorem none_disables_and_empty_infers
    (file : string) (mode : openmode) (level : Z) (w w' : World) :
  size file < npos ->
  sink_opens file mode w w' ->
  (exists s,
     filter_ostream_new_file file mode "none" level w = (Ok s, w') /\
     compressors s = [])
  /\
  (exists s,
     filter_ostream_new_file file mode "" level w = (Ok s, w') /\
     (is_suffix ".gz" file \/ is_suffix ".gz~" file ->
      compressors s = [gzip_compressor (params_of level)]) /\
     (is_suffix ".bz2" file \/ is_suffix ".bz2~" file ->
      compressors s = [bzip2_compressor (params_of level)]) /\
     (is_suffix ".xz" file \/ is_suffix ".xz~" file ->
      compressors s = [lzma_compressor (params_of level)]) /\
     ((forall suffix, In suffix suffix_table -> ~ is_suffix suffix file) ->
      compressors s = [])).
Proof.
  intros Hsz Hopen. split; [exact (none_compressor _ _ level _ _ Hopen)|].
  destruct (inferred_compressor _ _ level _ _ Hopen) as (s & Hs & Hc).
  exists s. split; [exact Hs|]. rewrite Hc. clear Hs Hc Hopen. cbv zeta.
  destruct (String.eqb_spec file "") as [->|Hne].
  - repeat split.
    1-3: intros [Hx|Hx]; exfalso; revert Hx;
         apply no_suffix_of_empty; discriminate.
  - pose proof (suffix_families_exclusive file Hsz) as Hex.
    cbv zeta in Hex.
    assert (Hin : forall x, is_suffix x file -> ends_with file x = true)
      by (intros x; apply ends_with_is_suffix; exact Hsz).
    repeat split.
    + intros [Hx|Hx]; apply Hin in Hx; rewrite Hx;
        rewrite ?orb_true_r; reflexivity.
    + intros [Hx|Hx]; apply Hin in Hx; rewrite Hx in *;
        rewrite ?orb_true_r in *;
        destruct (ends_with file ".gz" || ends_with file ".gz~");
        [destruct Hex as (? & _); discriminate|reflexivity
        |destruct Hex as (? & _); discriminate|reflexivity].
    + intros [Hx|Hx]; apply Hin in Hx; rewrite Hx in *;
        rewrite ?orb_true_r in *;
        destruct (ends_with file ".gz" || ends_with file ".gz~");
        destruct (ends_with file ".bz2" || ends_with file ".bz2~");
        destruct Hex as (? & ? & ?); try discriminate; reflexivity.
    + intros Hnone.
      assert (Hout : forall x, In x suffix_table -> ends_with file x = false).
      { intros x Hx. destruct (ends_with file x) eqn:E; [|reflexivity].
        apply (ends_with_is_suffix file x Hsz) in E.
        destruct (Hnone x Hx E). }
      rewrite !Hout by (simpl; tauto). reflexivity.
Qed.

End SuffixInference.

(** ** The status string *)

Section Status.

Lemma land_bit (a : Z) (n : Z) :
  0 <= n -> negb (Z.land a (2 ^ n) =? 0) = Z.testbit a n.
Proof.
  intros Hn. destruct (Z.testbit a n) eqn:E.
  - apply negb_true_iff, Z.eqb_neq. intros H0.
    assert (Hb : Z.testbit (Z.land a (2 ^ n)) n = true)
      by (rewrite Z.land_spec, E, Z.pow2_bits_true by lia; reflexivity).
    rewrite H0, Z.bits_0 in Hb. discriminate.
  - apply negb_false_iff, Z.eqb_eq. apply Z.bits_inj'. intros m Hm.
    rewrite Z.land_spec, Z.bits_0, Z.pow2_bits_eqb by lia.
    destruct (Z.eqb_spec n m) as [->|]; [now rewrite E|apply andb_false_r].
Qed.

Lemma bad_bit (b : basic_ios) : bad b = Z.testbit (rdstate b) 0.
Proof. unfold bad, badbit. exact (land_bit _ 0 ltac:(lia)). Qed.

Lemma eof_bit (b : basic_ios) : eof b = Z.testbit (rdstate b) 1.
Proof. unfold eof, eofbit. exact (land_bit _ 1 ltac:(lia)). Qed.

Lemma fail_bits (b : basic_ios) :
  fail b = Z.testbit (rdstate b) 0 || Z.testbit (rdstate b) 2.
Proof.
  unfold fail, badbit, failbit.
  rewrite <- (land_bit _ 0), <- (land_bit _ 2) by lia.
  rewrite Z.land_lor_distr_r.
  change (2 ^ 0) with 1. change (2 ^ 2) with 4.
  destruct (Z.eqb_spec (Z.land (rdstate b) 1) 0) as [E1|E1];
    destruct (Z.eqb_spec (Z.land (rdstate b) 4) 0) as [E4|E4];
    simpl; try (apply negb_true_iff, Z.eqb_neq; rewrite Z.lor_eq_0_iff; tauto).
  rewrite E1, E4. reflexivity.
Qed.

(** C5, as the code has it.  [status()] is "good" exactly when neither
    [failbit] nor [badbit] is set, whether or not [eofbit] is; otherwise
    it is " fail", followed by " bad" when [badbit] is set, followed by
    " eof" when [eofbit] is set: every word is preceded by one space, the
    first included, and " fail" is always present.  Five strings are
    possible. *)
Theorem status_strings (s : filter_ostream) :
  let st := rdstate (o_ios s) in
  filter_ostream_status s =
    (if negb (Z.testbit st 2 || Z.testbit st 0) then "good"
     else " fail" +:+ (if Z.testbit st 0 then " bad" else "")
                  +:+ (if Z.testbit st 1 then " eof" else ""))
  /\
  (filter_ostream_status s = "good" <->
   Z.testbit st 2 = false /\ Z.testbit st 0 = false)
  /\
  In (filter_ostream_status s)
     ["good"; " fail"; " fail bad"; " fail eof"; " fail bad eof"].
Proof.
  cbv zeta. unfold filter_ostream_status, operator_bool.
  rewrite fail_bits, bad_bit, eof_bit.
  destruct (Z.testbit (rdstate (o_ios s)) 0);
    destruct (Z.testbit (rdstate (o_ios s)) 1);
    destruct (Z.testbit (rdstate (o_ios s)) 2);
    (split; [reflexivity|]); (split; [|simpl; tauto]);
    simpl; split; intros Hs; try discriminate Hs; try tauto;
    destruct Hs; discriminate.
Qed.

End Status.

(** ** Failures of [open] *)

Section Triples.

Context {S : Type}.

Lemma hoare_ret {A} (P : S -> Prop) (a : A) (Q : A -> S -> Prop) E :
  (forall st, P st -> Q a st) -> hoare P (ret a) Q E.
Proof. intros HQ st HP. exact (HQ st HP). Qed.

Lemma hoare_throw {A} (P : S -> Prop) ex (Q : A -> S -> Prop) (E : S -> Prop) :
  (forall st, P st -> E st) -> hoare P (throw ex) Q E.
Proof. intros HE st HP. exact (HE st HP). Qed.

Lemma hoare_bind {A B} (P : S -> Prop) (c : M S A) (k : A -> M S B)
    (Q' : A -> S -> Prop) (Q : B -> S -> Prop) (E : S -> Prop) :
  hoare P c Q' E -> (forall a, hoare (Q' a) (k a) Q E) ->
  hoare P (bind c k) Q E.
Proof.
  intros Hc Hk st HP. unfold bind. specialize (Hc st HP).
  destruct (c st) as [[a|ex] st']; [exact (Hk a st' Hc)|exact Hc].
Qed.

Lemma hoare_if {A} (P : S -> Prop) (b : bool) (c1 c2 : M S A) Q E :
  hoare P c1 Q E -> hoare P c2 Q E ->
  hoare P (if b then c1 else c2) Q E.
Proof. destruct b; auto. Qed.

End Triples.

Section OpenFailures.

Context {World : Type} `{Platform World}.

Lemma open_chain_nil : open_chain [].
Proof. intros d Hd. simpl. exact Hd. Qed.

Lemma open_chain_push (chain : filtering_stream) (x : stage) :
  open_chain chain -> is_device x = false -> open_chain (push chain x).
Proof.
  unfold open_chain, push. intros Hc Hx d Hd. specialize (Hc d Hd).
  induction chain as [|y chain IH]; simpl.
  - now rewrite Hx, Hd.
  - destruct chain as [|z chain]; simpl in *.
    + destruct (is_device y); [|now rewrite Hx, Hd].
      discriminate.
    + apply andb_true_iff in Hc as [Hy Hc].
      rewrite Hy. simpl. apply IH. exact Hc.
Qed.

(** [exceptions] changes neither the pipeline nor the buffer. *)
Lemma ostream_exceptions_triple (except : iostate) owned sb :
  hoare (ostream_holds (World := World) owned sb)
        (ostream_ios (exceptions except))
        (fun _ => ostream_holds owned sb) (ostream_holds owned sb).
Proof.
  intros [[[b st ex] str] w] [Ho Hb]. simpl in *.
  expose. repeat step; split; simpl; congruence.
Qed.

(** Installing a complete chain gives a valid stream and never throws. *)
Lemma ostream_install_triple (chain : filtering_stream) :
  hoare (fun _ : env filter_ostream World => is_complete chain = true)
        (ostream_reset chain ;; ostream_ios (rdbuf (Some (chain_rdbuf chain))))
        (fun _ e => pipeline_valid (o_stream (this e)) (o_ios (this e)))
        (fun _ => False).
Proof.
  intros [[[b st ex] str] w] Hc. expose.
  rewrite Z.land_0_r. cbv beta iota. unfold pipeline_valid, active_chain.
  split; intros c Hx; simpl in *; congruence.
Qed.

Lemma hoare_weaken {T A} (P P' : T -> Prop) (c : M T A)
    (Q Q' : A -> T -> Prop) (E E' : T -> Prop) :
  hoare P' c Q' E' ->
  (forall st, P st -> P' st) ->
  (forall a st, Q' a st -> Q a st) ->
  (forall st, E' st -> E st) ->
  hoare P c Q E.
Proof.
  intros Hc HP HQ HE st Hst. specialize (Hc st (HP st Hst)).
  destruct (c st) as [[a|ex] st']; auto.
Qed.

Ltac leaf :=
  first
    [ apply hoare_throw; intros ? ?; assumption
    | apply hoare_ret; intros ? ?; split; [assumption|];
      first [ exact open_chain_nil
            | apply open_chain_push; [exact open_chain_nil|reflexivity] ] ].

(** The triple of [open]: whatever happens, a stream that held a valid
    pipeline or none holds one afterwards; when [open] throws, the stream
    owns the pipeline and has the buffer it had before. *)
Lemma ostream_open_triple
    (file : string) (mode : openmode) (compression : string) (level : Z)
    owned sb :
  hoare (ostream_holds owned sb)
        (filter_ostream_open file mode compression level)
        (fun _ e => pipeline_valid (o_stream (this e)) (o_ios (this e)))
        (ostream_holds owned sb).
Proof.
  unfold filter_ostream_open. cbv zeta.
  apply hoare_bind with (Q' := fun _ => ostream_holds owned sb);
    [apply ostream_exceptions_triple|intros _].
  apply hoare_bind
    with (Q' := fun chain e => ostream_holds owned sb e /\ open_chain chain).
  { repeat apply hoare_if; leaf. }
  intros chain.
  apply hoare_bind
    with (Q' := fun chain' e => is_complete chain' = true).
  { apply hoare_if.
    - apply hoare_ret. intros e [_ Hc]. apply Hc. reflexivity.
    - apply hoare_bind
        with (Q' := fun _ e => ostream_holds owned sb e /\ open_chain chain).
      + intros e [[Ho Hb] Hc]. unfold in_world.
        destruct (file_sink_open _ _ _). repeat split; assumption.
      + intros is_open. apply hoare_if.
        * apply hoare_throw. intros e [Hh _]. exact Hh.
        * apply hoare_ret. intros e [_ Hc]. apply Hc. reflexivity. }
  intros chain'.
  eapply hoare_weaken; [apply ostream_install_triple|auto..].
  intros st [].
Qed.

Lemma ostream_open_fd_triple
    (fd : Z) (mode : openmode) (compression : string) (level : Z) owned sb :
  hoare (ostream_holds (World := World) owned sb)
        (filter_ostream_open_fd fd mode compression level)
        (fun _ e => pipeline_valid (o_stream (this e)) (o_ios (this e)))
        (ostream_holds owned sb).
Proof.
  unfold filter_ostream_open_fd. cbv zeta.
  apply hoare_bind with (Q' := fun _ => ostream_holds owned sb);
    [apply ostream_exceptions_triple|intros _].
  apply hoare_bind
    with (Q' := fun chain e => ostream_holds owned sb e /\ open_chain chain).
  { repeat apply hoare_if; leaf. }
  intros chain.
  eapply hoare_weaken; [apply ostream_install_triple|..]; auto.
  - intros e [_ Hc]. destruct (BOOST_VERSION <? 104100); apply Hc; reflexivity.
  - intros st [].
Qed.

Lemma istream_install_triple (chain : filtering_stream) :
  hoare (fun _ : env filter_istream World => is_complete chain = true)
        (istream_reset chain ;; istream_ios (rdbuf (Some (chain_rdbuf chain))))
        (fun _ e => pipeline_valid (i_stream (this e)) (i_ios (this e)))
        (fun _ => False).
Proof.
  intros [[[b st ex] str] w] Hc. expose.
  rewrite Z.land_0_r. cbv beta iota. unfold pipeline_valid, active_chain.
  split; intros c Hx; simpl in *; congruence.
Qed.

Lemma istream_open_triple (file : string) (mode : openmode)
    (s0 : filter_istream) :
  hoare (fun e : env filter_istream World => this e = s0)
        (filter_istream_open file mode)
        (fun _ e => pipeline_valid (i_stream (this e)) (i_ios (this e)))
        (fun e => this e = s0).
Proof.
  unfold filter_istream_open. cbv zeta.
  set (name := if file == "" then "/dev/null" else file).
  set (filters := if ends_with name ".xz" || ends_with name ".xz~"
                  then _ else _).
  assert (Hf : open_chain filters).
  { subst filters.
    destruct (ends_with name ".gz" || ends_with name ".gz~");
      destruct (ends_with name ".bz2" || ends_with name ".bz2~");
      destruct (ends_with name ".xz" || ends_with name ".xz~");
      repeat first [exact open_chain_nil
                   | apply open_chain_push; [|reflexivity]]. }
  apply hoare_bind with (Q' := fun chain' e => is_complete chain' = true).
  { apply hoare_if.
    - apply hoare_ret. intros e _. apply Hf. reflexivity.
    - apply hoare_bind with (Q' := fun _ e => this e = s0).
      + intros e He. unfold in_world.
        destruct (file_source_open _ _ _). exact He.
      + intros is_open. apply hoare_if.
        * apply hoare_bind with (Q' := fun _ e => this e = s0);
            [intros e He; exact He|].
          intros w. apply hoare_throw. auto.
        * apply hoare_ret. intros e _. apply Hf. reflexivity. }
  intros chain'.
  eapply hoare_weaken; [apply istream_install_triple|auto..].
  intros st [].
Qed.

Lemma pipeline_valid_buffer (owned : option filtering_stream)
    (b b' : basic_ios) :
  streambuf_ b' = streambuf_ b ->
  pipeline_valid owned b -> pipeline_valid owned b'.
Proof.
  unfold pipeline_valid, active_chain. intros ->. auto.
Qed.

(** C7, as the code has it.  When [open] throws, in either direction and
    whatever the exception, the stream owns the pipeline it owned before
    and has the buffer it had before: the new pipeline is not installed,
    and the prior one is neither deleted nor detached.  For input the
    whole object is unchanged.  A stream that holds a valid pipeline or
    none before [open] holds a valid pipeline or none afterwards, whether
    [open] returns or throws. *)
Theorem failed_open_keeps_prior_pipeline :
  (forall file mode compression level (e e' : env filter_ostream World) ex,
     filter_ostream_open file mode compression level e = (Throw ex, e') ->
     o_stream (this e') = o_stream (this e) /\
     streambuf_ (o_ios (this e')) = streambuf_ (o_ios (this e)))
  /\
  (forall fd mode compression level (e e' : env filter_ostream World) ex,
     filter_ostream_open_fd fd mode compression level e = (Throw ex, e') ->
     o_stream (this e') = o_stream (this e) /\
     streambuf_ (o_ios (this e')) = streambuf_ (o_ios (this e)))
  /\
  (forall file mode (e e' : env filter_istream World) ex,
     filter_istream_open file mode e = (Throw ex, e') ->
     this e' = this e)
  /\
  (forall file mode compression level (e e' : env filter_ostream World) r,
     filter_ostream_open file mode compression level e = (r, e') ->
     pipeline_valid (o_stream (this e)) (o_ios (this e)) ->
     pipeline_valid (o_stream (this e')) (o_ios (this e')))
  /\
  (forall file mode (e e' : env filter_istream World) r,
     filter_istream_open file mode e = (r, e') ->
     pipeline_valid (i_stream (this e)) (i_ios (this e)) ->
     pipeline_valid (i_stream (this e')) (i_ios (this e'))).
Proof.
  split; [|split; [|split; [|split]]].
  - intros file mode compression level e e' ex Hopen.
    pose proof (ostream_open_triple file mode compression level _ _ e
                  (conj eq_refl eq_refl)) as Ht.
    rewrite Hopen in Ht. exact Ht.
  - intros fd mode compression level e e' ex Hopen.
    pose proof (ostream_open_fd_triple fd mode compression level _ _ e
                  (conj eq_refl eq_refl)) as Ht.
    rewrite Hopen in Ht. exact Ht.
  - intros file mode e e' ex Hopen.
    pose proof (istream_open_triple file mode _ e eq_refl) as Ht.
    rewrite Hopen in Ht. exact Ht.
  - intros file mode compression level e e' r Hopen Hv.
    pose proof (ostream_open_triple file mode compression level _ _ e
                  (conj eq_refl eq_refl)) as Ht.
    rewrite Hopen in Ht. destruct r as [a|ex]; [exact Ht|].
    destruct Ht as [Ho Hb]. rewrite Ho.
    exact (pipeline_valid_buffer _ _ _ Hb Hv).
  - intros file mode e e' r Hopen Hv.
    pose proof (istream_open_triple file mode _ e eq_refl) as Ht.
    rewrite Hopen in Ht. destruct r as [a|ex]; [exact Ht|].
    rewrite Ht. exact Hv.
Qed.

End OpenFailures.

(** ** The diagnostic of a failed input open *)

Section InputDiagnostic.

Context {World : Type} `{Platform World}.

Lemma occurs_append (c : ascii) (s t : string) :
  occurs c (s +:+ t) = occurs c s || occurs c t.
Proof.
  induction s as [|d s IH]; [reflexivity|].
  rewrite append_cons. simpl. rewrite IH. apply orb_assoc.
Qed.

Lemma occurs_infix (c : ascii) (part s : string) :
  is_infix part s -> occurs c part = true -> occurs c s = true.
Proof.
  intros (front & back & ->) Hc.
  rewrite !occurs_append, Hc. apply orb_true_iff. right. reflexivity.
Qed.

Lemma c_str_without_nul (s : string) :
  occurs Ascii.zero s = false -> c_str s = s.
Proof.
  induction s as [|d s IH]; [reflexivity|].
  simpl. intros Hs. apply orb_false_iff in Hs as [Hd Hs].
  rewrite Hd, IH by exact Hs. reflexivity.
Qed.

(** C9, as the code has it.  For a file name other than "" and "-" whose
    file source does not open, [filter_istream::open] throws at once, the
    stream object is unchanged, and the message of the exception is
    "stream open failed for file ", the caller's file name read as a C
    string, ": ", and the system error text for [errno].  The message is
    not empty and contains both parts; the C string is the whole file name
    when the name has no NUL character. *)
Theorem input_open_failure_message
    (file_ : string) (mode : openmode) (e : env filter_istream World)
    (w' : World) :
  file_ <> "" -> file_ <> "-" ->
  file_source_open (c_str file_) mode (world e) = (false, w') ->
  let message := "stream open failed for file " +:+ c_str file_
                 +:+ ": " +:+ strerror (errno w') in
  filter_istream_open file_ mode e
    = (Throw (ML_Exception message), {| this := this e; world := w' |})
  /\ message <> ""
  /\ is_infix (c_str file_) message
  /\ is_infix (strerror (errno w')) message
  /\ (occurs Ascii.zero file_ = false -> c_str file_ = file_).
Proof.
  intros Hne Hdash Hopen. cbv zeta.
  apply String.eqb_neq in Hne, Hdash.
  split; [|split; [|split; [|split]]].
  - destruct e as [[b str] w]. simpl in Hopen.
    rewrite <- format_open_failed. expose.
    rewrite Hne, Hdash, Hopen. reflexivity.
  - discriminate.
  - exists "stream open failed for file ", (": " +:+ strerror (errno w')).
    reflexivity.
  - exists ("stream open failed for file " +:+ c_str file_ +:+ ": "), "".
    rewrite append_nil_r, !append_assoc. reflexivity.
  - apply c_str_without_nul.
Qed.

End InputDiagnostic.

(** ** The statements on the reference platform *)

Section Reference.

Import RefPlatform.

(** The null device: nothing is created in the file system. *)
Example null_device_leaves_no_file :
  filter_ostream_new_file "" ios_out "" (-1) w0
    = (Ok (bound_ostream [file_sink "/dev/null" ios_out]), w0).
Proof. reflexivity. Qed.

(** A named file is created by a successful open. *)
Example named_file_is_created :
  files (snd (filter_ostream_new_file "out.gz" ios_out "none" (-1) w0))
    !! "out.gz" = Some "".
Proof. vm_compute. reflexivity. Qed.

(** A protected path cannot be opened for output. *)
Example protected_file_fails :
  fst (filter_ostream_new_file "locked.txt" ios_out "" (-1) w0)
    = Throw (OpenFailed "locked.txt").
Proof. reflexivity. Qed.

(** [close()] leaves the stream without a buffer, hence with [badbit];
    a stream whose exception mask was set by [open] throws there, and
    [open] on a closed stream throws before it selects a codec. *)
Example open_after_close_throws :
  let fresh := {| this := filter_ostream_new; world := w0 |} in
  fst (filter_ostream_close fresh) = Ok tt /\
  fst (filter_ostream_open "out.gz" ios_out "" (-1)
         (snd (filter_ostream_close fresh)))
    = Throw (ios_base_failure "basic_ios::clear") /\
  fst (filter_ostream_close
         {| this := bound_ostream [std_cout]; world := w0 |})
    = Throw (ios_base_failure "basic_ios::clear").
Proof. repeat split; reflexivity. Qed.

Lemma unknown_codec_before_device_witness :
  ~ In "bogus" compression_vocabulary /\
  filter_ostream_new_file "out.gz" ios_out "bogus" (-1) w0
    = (Throw (UnknownCodec "bogus"), w0).
Proof.
  assert (Hout : ~ In "bogus" compression_vocabulary)
    by (simpl; intuition discriminate).
  split; [exact Hout|].
  exact (proj1 (unknown_codec_before_device
                  "out.gz" ios_out "bogus" (-1) w0 Hout)).
Defined.

(** C4 as stated fails: with the empty compression name the file name
    "out.gz" gets a gzip compressor, so the codec is not none. *)
Lemma empty_name_infers_gzip :
  fst (filter_ostream_new_file "out.gz" ios_out "" (-1) w0)
    = Ok (bound_ostream [gzip_compressor default_params;
                         file_sink "out.gz" ios_out])
  /\
  compressors (bound_ostream [gzip_compressor default_params;
                              file_sink "out.gz" ios_out]) <> [].
Proof. split; [vm_compute; reflexivity|discriminate]. Qed.

Lemma none_disables_and_empty_infers_witness :
  let w' := snd (sink_open "out.gz" ios_out w0) in
  size "out.gz" < npos /\
  sink_opens "out.gz" ios_out w0 w' /\
  exists s,
    filter_ostream_new_file "out.gz" ios_out "" (-1) w0 = (Ok s, w') /\
    compressors s = [gzip_compressor (params_of (-1))].
Proof.
  cbv zeta.
  assert (Hsz : size "out.gz" < npos) by reflexivity.
  assert (Hopen : sink_opens "out.gz" ios_out w0
                    (snd (sink_open "out.gz" ios_out w0)))
    by reflexivity.
  split; [exact Hsz|]. split; [exact Hopen|].
  destruct (proj2 (none_disables_and_empty_infers
                     "out.gz" ios_out (-1) w0 _ Hsz Hopen))
    as (s & Hs & Hgz & _).
  exists s. split; [exact Hs|].
  apply Hgz. left. exists "out". reflexivity.
Defined.

(** C5 as stated fails: with [failbit] alone the code returns " fail",
    with a leading space, where the description gives "fail"; with
    [eofbit] alone it returns "good" where the description gives "eof";
    with [badbit] alone it returns " fail bad" where the description gives
    "bad". *)
Lemma status_differs_from_description :
  filter_ostream_status (ostream_in_state failbit) = " fail" /\
  status_as_described (ostream_in_state failbit) = "fail" /\
  filter_ostream_status (ostream_in_state failbit)
    <> status_as_described (ostream_in_state failbit) /\
  filter_ostream_status (ostream_in_state eofbit) = "good" /\
  status_as_described (ostream_in_state eofbit) = "eof" /\
  filter_ostream_status (ostream_in_state badbit) = " fail bad" /\
  status_as_described (ostream_in_state badbit) = "bad".
Proof. repeat split; try reflexivity. discriminate. Qed.

Lemma suffix_test_exact_witness :
  size "archive.tar.gz" < npos /\
  (ends_with "archive.tar.gz" ".gz" = true
   <-> is_suffix ".gz" "archive.tar.gz").
Proof.
  assert (Hsz : size "archive.tar.gz" < npos) by reflexivity.
  split; [exact Hsz|].
  exact (proj1 (suffix_test_exact (World := fs)
                  "archive.tar.gz" ".gz" Hsz)).
Defined.

(** C7 as stated fails: a stream bound to "a.txt" on which a second
    [open] throws, for an unknown codec or for a file that cannot be
    opened, still owns the pipeline on "a.txt" and still has it as its
    active buffer; the prior pipeline is not torn down. *)
Lemma prior_pipeline_survives_failed_open :
  let chain := [file_sink "a.txt" ios_out] in
  let opened := filter_ostream_new_file "a.txt" ios_out "" (-1) w0 in
  let e := {| this := bound_ostream chain; world := snd opened |} in
  let unknown := filter_ostream_open "b.txt" ios_out "bogus" (-1) e in
  let locked := filter_ostream_open "locked.txt" ios_out "" (-1) e in
  fst opened = Ok (bound_ostream chain) /\
  fst unknown = Throw (UnknownCodec "bogus") /\
  o_stream (this (snd unknown)) = Some chain /\
  active_chain (o_ios (this (snd unknown))) = Some chain /\
  fst locked = Throw (OpenFailed "locked.txt") /\
  o_stream (this (snd locked)) = Some chain /\
  active_chain (o_ios (this (snd locked))) = Some chain /\
  o_stream (this (snd unknown)) <> None.
Proof.
  cbv zeta. repeat split; try (vm_compute; reflexivity).
  vm_compute. discriminate.
Qed.

Lemma failed_open_keeps_prior_pipeline_witness :
  let e := {| this := filter_ostream_new; world := w0 |} in
  let e' := {| this := {| o_ios := {| streambuf_ := Some cout_rdbuf;
                                      streambuf_state := goodbit;
                                      exception_ := Z.lor badbit failbit |};
                          o_stream := None |};
               world := w0 |} in
  filter_ostream_open "b.txt" ios_out "bogus" (-1) e
    = (Throw (UnknownCodec "bogus"), e') /\
  o_stream (this e') = o_stream (this e) /\
  streambuf_ (o_ios (this e')) = streambuf_ (o_ios (this e)).
Proof.
  cbv zeta.
  assert (Hopen :
    filter_ostream_open "b.txt" ios_out "bogus" (-1)
      {| this := filter_ostream_new; world := w0 |}
    = (Throw (UnknownCodec "bogus"),
       {| this := {| o_ios := {| streambuf_ := Some cout_rdbuf;
                                 streambuf_state := goodbit;
                                 exception_ := Z.lor badbit failbit |};
                     o_stream := None |};
          world := w0 |}))
    by reflexivity.
  split; [exact Hopen|].
  exact (proj1 failed_open_keeps_prior_pipeline _ _ _ _ _ _ _ Hopen).
Defined.

(** C9 as stated fails: for a file name with a NUL character the message
    holds the characters before the NUL only, not the file name. *)
Lemma file_name_with_nul_is_cut :
  fst (filter_istream_new_file name_with_nul ios_in w0)
    = Throw (ML_Exception
               "stream open failed for file a: No such file or directory")
  /\
  ~ is_infix name_with_nul
      "stream open failed for file a: No such file or directory".
Proof.
  split; [vm_compute; reflexivity|].
  intros Hin. apply (occurs_infix Ascii.zero) in Hin; [discriminate Hin|].
  reflexivity.
Qed.

Lemma input_open_failure_message_witness :
  let e := {| this := filter_istream_new; world := w0 |} in
  let w' := set_errno ENOENT w0 in
  "missing.txt" <> "" /\ "missing.txt" <> "-" /\
  source_open (c_str "missing.txt") ios_in w0 = (false, w') /\
  filter_istream_open "missing.txt" ios_in e
    = (Throw (ML_Exception
                ("stream open failed for file " +:+ c_str "missing.txt"
                 +:+ ": " +:+ error_text (last_errno w'))),
       {| this := filter_istream_new; world := w' |}).
Proof.
  cbv zeta.
  assert (H1 : "missing.txt" <> "") by discriminate.
  assert (H2 : "missing.txt" <> "-") by discriminate.
  assert (H3 : source_open (c_str "missing.txt") ios_in w0
               = (false, set_errno ENOENT w0)) by reflexivity.
  split; [exact H1|]. split; [exact H2|]. split; [exact H3|].
  exact (proj1 (input_open_failure_message
                  "missing.txt" ios_in
                  {| this := filter_istream_new; world := w0 |}
                  (set_errno ENOENT w0) H1 H2 H3)).
Defined.

Lemma at_most_one_decompressor_witness :
  let e := {| this := filter_istream_new; world := w0 |} in
  let e' := {| this := bound_istream goodbit
                         [gzip_decompressor; file_source "data.gz" ios_in];
               world := w0 |} in
  size "data.gz" < npos /\
  filter_istream_open "data.gz" ios_in e = (Ok tt, e') /\
  (List.length (decompressors (this e')) <= 1)%nat.
Proof.
  cbv zeta.
  assert (Hsz : size "data.gz" < npos) by reflexivity.
  assert (Hopen : filter_istream_open "data.gz" ios_in
                    {| this := filter_istream_new; world := w0 |}
                  = (Ok tt,
                     {| this := bound_istream goodbit
                                  [gzip_decompressor;
                                   file_source "data.gz" ios_in];
                        world := w0 |})) by reflexivity.
  split; [exact Hsz|]. split; [exact Hopen|].
  exact (proj2 (proj2 (at_most_one_decompressor "data.gz" Hsz))
           _ _ _ Hopen).
Defined.

End Reference.

(** ** Entering [open], and [close] *)

Section EntryAndClose.

Context {World : Type} `{Platform World}.

Lemma lor_badbit_fails (st : Z) :
  (Z.land (Z.lor badbit failbit) (Z.lor st badbit) =? 0) = false.
Proof.
  apply Z.eqb_neq. intros H0.
  assert (Hb : Z.testbit (Z.land (Z.lor badbit failbit) (Z.lor st badbit)) 0
               = true).
  { rewrite Z.land_spec, !Z.lor_spec.
    replace (Z.testbit badbit 0) with true by reflexivity.
    now rewrite orb_true_r. }
  rewrite H0, Z.bits_0 in Hb. discriminate.
Qed.

(** The first statement of both output [open]s: it throws exactly on a
    stream that is not usable, and touches neither pipeline nor world. *)
Lemma ostream_entry (e : env filter_ostream World) :
  ostream_ios (exceptions (Z.lor badbit failbit)) e
  = (if usable (o_ios (this e)) then Ok tt
     else Throw (ios_base_failure "basic_ios::clear"),
     {| this := entered (this e); world := world e |}).
Proof.
  destruct e as [[[sb st ex] str] w]. unfold usable, entered, fail.
  expose. destruct sb as [sb|].
  - rewrite (Z.land_comm st). destruct (Z.land _ st =? 0); reflexivity.
  - rewrite lor_badbit_fails. reflexivity.
Qed.

Lemma close_run (b : basic_ios) :
  rdbuf None b
  = (if Z.testbit (exception_ b) 0
     then Throw (ios_base_failure "basic_ios::clear") else Ok tt,
     closed_ios b).
Proof.
  destruct b as [sb st ex]. unfold closed_ios. expose.
  rewrite <- (land_bit ex 0) by lia.
  change (Z.lor goodbit badbit) with (2 ^ 0).
  destruct (Z.land ex (2 ^ 0) =? 0); reflexivity.
Qed.

(** X1. [filter_ostream::close()] detaches the buffer and nothing else:
    the world is unchanged, the pipeline stays owned by the stream (it is
    not deleted), the state is [badbit] alone whatever it was, so that
    [status()] is " fail bad" afterwards.  The call throws
    [ios_base::failure] exactly when [badbit] is in the exception mask. *)
Theorem close_detaches_and_sets_bad (e : env filter_ostream World) :
  let r := filter_ostream_close e in
  snd r = {| this := {| o_ios := closed_ios (o_ios (this e));
                        o_stream := o_stream (this e) |};
             world := world e |}
  /\ filter_ostream_status (this (snd r)) = " fail bad"
  /\ (fst r = Ok tt <-> Z.testbit (exception_ (o_ios (this e))) 0 = false)
  /\ (fst r = Throw (ios_base_failure "basic_ios::clear")
      <-> Z.testbit (exception_ (o_ios (this e))) 0 = true).
Proof.
  cbv zeta. unfold filter_ostream_close, ostream_ios.
  rewrite close_run. destruct e as [[b str] w]. cbn [fst snd this o_ios].
  split; [reflexivity|]. split; [reflexivity|].
  destruct (Z.testbit (exception_ b) 0); split; split; congruence.
Qed.

(** [filter_istream::close()], run. *)
Lemma istream_close_run (e : env filter_istream World) :
  filter_istream_close e
  = (if Z.testbit (exception_ (i_ios (this e))) 0
     then Throw (ios_base_failure "basic_ios::clear") else Ok tt,
     {| this := {| i_ios := closed_ios (i_ios (this e));
                   i_stream := i_stream (this e) |};
        world := world e |}).
Proof.
  unfold filter_istream_close, istream_ios. rewrite close_run.
  destruct e as [[b str] w]. reflexivity.
Qed.

End EntryAndClose.

(** ** What a call of [open] leaves behind *)

Section OpenOutcome.

Context {World : Type} `{Platform World}.

Lemma entry_bind {A} (k : unit -> M (env filter_ostream World) A)
    (e : env filter_ostream World) :
  bind (ostream_ios (exceptions (Z.lor badbit failbit))) k e
  = if usable (o_ios (this e))
    then k tt {| this := entered (this e); world := world e |}
    else (Throw (ios_base_failure "basic_ios::clear"),
          {| this := entered (this e); world := world e |}).
Proof.
  unfold bind. rewrite ostream_entry. destruct (usable _); reflexivity.
Qed.

Lemma ostream_install_run (chain : filtering_stream)
    (e : env filter_ostream World) :
  (ostream_reset chain ;; ostream_ios (rdbuf (Some (chain_rdbuf chain)))) e
  = (Ok tt,
     {| this := {| o_ios := {| streambuf_ := Some (chain_rdbuf chain);
                               streambuf_state := goodbit;
                               exception_ := exception_ (o_ios (this e)) |};
                   o_stream := Some chain |};
        world := world e |}).
Proof.
  destruct e as [[[sb st ex] str] w]. expose. rewrite Z.land_0_r.
  reflexivity.
Qed.

Lemma istream_install_run (chain : filtering_stream)
    (e : env filter_istream World) :
  (istream_reset chain ;; istream_ios (rdbuf (Some (chain_rdbuf chain)))) e
  = (Ok tt,
     {| this := bound_istream (exception_ (i_ios (this e))) chain;
        world := world e |}).
Proof.
  destruct e as [[[sb st ex] str] w]. expose. rewrite Z.land_0_r.
  reflexivity.
Qed.

Ltac filters_leaf :=
  first
    [ apply hoare_throw; intros ? ?; assumption
    | apply hoare_ret; intros ? ?; split; [assumption|];
      first [ exact open_chain_nil
            | apply open_chain_push; [exact open_chain_nil|reflexivity] ] ].

(** From the entered stream on: a return leaves a stream bound to a
    complete chain, a throw leaves the entered stream. *)
Lemma ostream_open_result_triple
    (file : string) (mode : openmode) (compression : string) (level : Z)
    (s0 : filter_ostream) :
  hoare (fun e : env filter_ostream World => this e = s0)
        (filter_ostream_open file mode compression level)
        (fun _ e => exists chain,
             this e = bound_ostream chain /\ is_complete chain = true)
        (fun e => this e = entered s0).
Proof.
  unfold filter_ostream_open. cbv zeta.
  apply hoare_bind with (Q' := fun _ e => this e = entered s0).
  { intros e He. rewrite ostream_entry, He.
    destruct (usable _); reflexivity. }
  intros _.
  apply hoare_bind
    with (Q' := fun chain e => this e = entered s0 /\ open_chain chain).
  { repeat apply hoare_if; filters_leaf. }
  intros chain.
  apply hoare_bind
    with (Q' := fun chain' e =>
                  this e = entered s0 /\ is_complete chain' = true).
  { apply hoare_if.
    - apply hoare_ret. intros e [He Hc]. split; [exact He|].
      apply Hc. reflexivity.
    - apply hoare_bind
        with (Q' := fun _ e => this e = entered s0 /\ open_chain chain).
      + intros e [He Hc]. unfold in_world.
        destruct (file_sink_open _ _ _). split; assumption.
      + intros is_open. apply hoare_if.
        * apply hoare_throw. intros e [He _]. exact He.
        * apply hoare_ret. intros e [He Hc]. split; [exact He|].
          apply Hc. reflexivity. }
  intros chain' e [He Hc]. rewrite ostream_install_run, He.
  exists chain'. split; [reflexivity|exact Hc].
Qed.

Lemma ostream_open_fd_result_triple
    (fd : Z) (mode : openmode) (compression : string) (level : Z)
    (s0 : filter_ostream) :
  hoare (fun e : env filter_ostream World => this e = s0)
        (filter_ostream_open_fd fd mode compression level)
        (fun _ e => exists chain,
             this e = bound_ostream chain /\ is_complete chain = true)
        (fun e => this e = entered s0).
Proof.
  unfold filter_ostream_open_fd. cbv zeta.
  apply hoare_bind with (Q' := fun _ e => this e = entered s0).
  { intros e He. rewrite ostream_entry, He.
    destruct (usable _); reflexivity. }
  intros _.
  apply hoare_bind
    with (Q' := fun chain e => this e = entered s0 /\ open_chain chain).
  { repeat apply hoare_if; filters_leaf. }
  intros chain e [He Hc]. rewrite ostream_install_run, He.
  eexists. split; [reflexivity|].
  destruct (BOOST_VERSION <? 104100); apply Hc; reflexivity.
Qed.

Lemma status_of_bound (chain : filtering_stream) :
  filter_ostream_status (bound_ostream chain) = "good".
Proof. reflexivity. Qed.

Lemma usable_entered (s : filter_ostream) :
  usable (o_ios s) = true ->
  usable (o_ios (entered s)) = true /\
  rdstate (o_ios (entered s)) = rdstate (o_ios s).
Proof.
  destruct s as [[sb st ex] str]. unfold usable, entered, fail. simpl.
  destruct sb; [auto|discriminate].
Qed.

(** X4. When an output [open] returns, by file name or by descriptor,
    the stream was usable at the call, and it now owns a complete chain
    that is also its active buffer, with every state flag cleared:
    [status()] is "good". *)
Theorem successful_output_open_is_good :
  (forall file mode compression level (e e' : env filter_ostream World),
     filter_ostream_open file mode compression level e = (Ok tt, e') ->
     usable (o_ios (this e)) = true /\
     filter_ostream_status (this e') = "good" /\
     exists chain,
       this e' = bound_ostream chain /\ is_complete chain = true)
  /\
  (forall fd mode compression level (e e' : env filter_ostream World),
     filter_ostream_open_fd fd mode compression level e = (Ok tt, e') ->
     usable (o_ios (this e)) = true /\
     filter_ostream_status (this e') = "good" /\
     exists chain,
       this e' = bound_ostream chain /\ is_complete chain = true).
Proof.
  split.
  - intros file mode compression level e e' Hopen.
    pose proof (ostream_open_result_triple file mode compression level
                  _ e eq_refl) as Ht.
    rewrite Hopen in Ht. destruct Ht as (chain & Hb & Hc).
    split; [|split; [rewrite Hb; reflexivity|exists chain; auto]].
    revert Hopen. unfold filter_ostream_open. cbv zeta.
    rewrite entry_bind. destruct (usable _); [reflexivity|discriminate].
  - intros fd mode compression level e e' Hopen.
    pose proof (ostream_open_fd_result_triple fd mode compression level
                  _ e eq_refl) as Ht.
    rewrite Hopen in Ht. destruct Ht as (chain & Hb & Hc).
    split; [|split; [rewrite Hb; reflexivity|exists chain; auto]].
    revert Hopen. unfold filter_ostream_open_fd. cbv zeta.
    rewrite entry_bind. destruct (usable _); [reflexivity|discriminate].
Qed.

(** X2. [close()] after an output [open] that returned always throws
    [ios_base::failure]: [open] has put [badbit] in the exception mask and
    [close()] sets [badbit].  The buffer is detached all the same, and
    the pipeline stays owned. *)
Theorem close_after_open_throws
    (file : string) (mode : openmode) (compression : string) (level : Z)
    (e e' : env filter_ostream World) :
  filter_ostream_open file mode compression level e = (Ok tt, e') ->
  fst (filter_ostream_close e') = Throw (ios_base_failure "basic_ios::clear")
  /\ streambuf_ (o_ios (this (snd (filter_ostream_close e')))) = None
  /\ o_stream (this (snd (filter_ostream_close e'))) = o_stream (this e')
  /\ world (snd (filter_ostream_close e')) = world e'.
Proof.
  intros Hopen.
  pose proof (ostream_open_result_triple file mode compression level
                _ e eq_refl) as Ht.
  rewrite Hopen in Ht. destruct Ht as (chain & Hb & _).
  destruct e' as [s' w']. simpl in Hb. subst s'.
  repeat split.
Qed.

(** X3. An output stream that has no buffer, or has [badbit] or
    [failbit], cannot be opened: both [open]s throw [ios_base::failure]
    from their first statement, before a codec is selected and before any
    device is touched, so the world and the owned pipeline are unchanged.
    This is the case of every stream after [close()]. *)
Theorem unusable_output_stream_cannot_open
    (file : string) (fd : Z) (mode : openmode) (compression : string)
    (level : Z) (e : env filter_ostream World) :
  usable (o_ios (this e)) = false ->
  let failed := (Throw (ios_base_failure "basic_ios::clear"),
                 {| this := entered (this e); world := world e |}) in
  filter_ostream_open file mode compression level e = failed /\
  filter_ostream_open_fd fd mode compression level e = failed /\
  o_stream (entered (this e)) = o_stream (this e) /\
  (forall e0 : env filter_ostream World,
     fst (filter_ostream_open file mode compression level
            (snd (filter_ostream_close e0)))
     = Throw (ios_base_failure "basic_ios::clear")).
Proof.
  intros Hu. cbv zeta.
  split; [|split; [|split]].
  - unfold filter_ostream_open. cbv zeta. rewrite entry_bind, Hu.
    reflexivity.
  - unfold filter_ostream_open_fd. cbv zeta. rewrite entry_bind, Hu.
    reflexivity.
  - reflexivity.
  - intros e0. unfold filter_ostream_open. cbv zeta. rewrite entry_bind.
    unfold filter_ostream_close, ostream_ios. rewrite close_run.
    destruct e0 as [[b str] w]. reflexivity.
Qed.

(** X6. An output [open] that throws on a usable stream leaves it usable,
    with the state flags, the buffer and the pipeline it had: only the
    exception mask is set.  The stream can be opened again. *)
Theorem failed_output_open_allows_retry
    (file : string) (mode : openmode) (compression : string) (level : Z)
    (e e' : env filter_ostream World) (ex : exception) :
  usable (o_ios (this e)) = true ->
  filter_ostream_open file mode compression level e = (Throw ex, e') ->
  usable (o_ios (this e')) = true /\
  rdstate (o_ios (this e')) = rdstate (o_ios (this e)) /\
  streambuf_ (o_ios (this e')) = streambuf_ (o_ios (this e)) /\
  o_stream (this e') = o_stream (this e) /\
  exception_ (o_ios (this e')) = Z.lor badbit failbit.
Proof.
  intros Hu Hopen.
  pose proof (ostream_open_result_triple file mode compression level
                _ e eq_refl) as Ht.
  rewrite Hopen in Ht. rewrite Ht.
  destruct (usable_entered _ Hu) as [Hu' Hst].
  repeat split; assumption.
Qed.

End OpenOutcome.

(** ** The prior pipeline does not influence [open] *)

Section PriorPipeline.

Context {World : Type} `{Platform World}.










End PriorPipeline.

(** ** Input streams *)

Section InputStreams.

Context {World : Type} `{Platform World}.

(** [filter_istream::open], run. *)
Lemma istream_open_run (file_ : string) (mode : openmode)
    (e : env filter_istream World) :
  filter_istream_open file_ mode e =
  let name := if file_ == "" then "/dev/null" else file_ in
  let mask := exception_ (i_ios (this e)) in
  if name == "-"
  then (Ok tt, {| this := bound_istream mask (push (input_filters name) std_cin);
                  world := world e |})
  else
    let (is_open, w') := file_source_open (c_str name) mode (world e) in
    if is_open
    then (Ok tt,
          {| this := bound_istream mask
                       (push (input_filters name)
                             (file_source (c_str name) mode));
             world := w' |})
    else (Throw (ML_Exception ("stream open failed for file "
                               +:+ c_str file_ +:+ ": "
                               +:+ strerror (errno w'))),
          {| this := this e; world := w' |}).
Proof.
  unfold filter_istream_open, input_filters. cbv zeta.
  set (name := if file_ == "" then "/dev/null" else file_).
  set (filters := if ends_with name ".xz" || ends_with name ".xz~"
                  then _ else _).
  unfold bind at 1. destruct (name == "-").
  - unfold ret. rewrite istream_install_run. reflexivity.
  - unfold bind at 1. unfold in_world.
    destruct (file_source_open (c_str name) mode (world e)) as [[|] w'].
    + cbn [negb]. unfold ret. rewrite istream_install_run. reflexivity.
    + cbn [negb]. unfold bind, gets, throw, Exception_fmt.
      rewrite format_open_failed. destruct e. reflexivity.
Qed.

Lemma input_filters_open (name : string) : open_chain (input_filters name).
Proof.
  unfold input_filters. cbv zeta.
  destruct (ends_with name ".gz" || ends_with name ".gz~");
    destruct (ends_with name ".bz2" || ends_with name ".bz2~");
    destruct (ends_with name ".xz" || ends_with name ".xz~");
    repeat first [exact open_chain_nil
                 | apply open_chain_push; [|reflexivity]].
Qed.

(** X11. [filter_istream::open] has no precondition on the stream: it
    returns whenever the name is "-" or the file source opens, also on a
    stream that is closed, failed or at end of file.  When it returns,
    every state flag is cleared, the exception mask is the one the stream
    had, and the stream owns a complete chain that is its active
    buffer. *)
Theorem input_open_resets_state
    (file : string) (mode : openmode) (e : env filter_istream World) :
  (forall w', source_opens file mode (world e) w' ->
     exists chain,
       filter_istream_open file mode e
         = (Ok tt,
            {| this := bound_istream (exception_ (i_ios (this e))) chain;
               world := w' |})
       /\ is_complete chain = true)
  /\
  (forall e', filter_istream_open file mode e = (Ok tt, e') ->
     rdstate (i_ios (this e')) = goodbit /\
     exception_ (i_ios (this e')) = exception_ (i_ios (this e)) /\
     pipeline_valid (i_stream (this e')) (i_ios (this e')) /\
     active_chain (i_ios (this e')) = i_stream (this e')).
Proof.
  split.
  - intros w'. unfold source_opens. cbv zeta. rewrite istream_open_run.
    cbv zeta. destruct (_ == "-").
    + intros ->. eexists. split; [reflexivity|].
      apply input_filters_open. reflexivity.
    + intros ->. eexists. split; [reflexivity|].
      apply input_filters_open. reflexivity.
  - intros e'. rewrite istream_open_run. cbv zeta.
    destruct (_ == "-");
      [|destruct (file_source_open _ _ _) as [[|] w']];
      intros Heq; inversion Heq; subst; clear Heq;
      (split; [reflexivity|]); (split; [reflexivity|]);
      (split; [|reflexivity]);
      (split; intros c Hc; simpl in Hc; inversion Hc; subst;
       [apply input_filters_open|]; reflexivity).
Qed.

(** X12. Closing an input stream before opening it again changes nothing
    in what [open] does: with [badbit] outside the exception mask, which
    is the case of every stream these functions build, [close()] returns,
    and [open] after it has the result, the world and, when it returns,
    the stream that [open] alone would have given. *)
Theorem input_close_then_reopen
    (file : string) (mode : openmode) (e : env filter_istream World) :
  Z.testbit (exception_ (i_ios (this e))) 0 = false ->
  let closed := filter_istream_close e in
  let r := (filter_istream_close ;; filter_istream_open file mode) e in
  let r0 := filter_istream_open file mode e in
  fst closed = Ok tt /\
  streambuf_ (i_ios (this (snd closed))) = None /\
  i_stream (this (snd closed)) = i_stream (this e) /\
  fst r = fst r0 /\
  world (snd r) = world (snd r0) /\
  (fst r0 = Ok tt -> snd r = snd r0).
Proof.
  intros Hm. cbv zeta. unfold bind.
  rewrite istream_close_run, Hm. cbn [fst snd this world i_ios i_stream].
  rewrite !istream_open_run. cbv zeta.
  cbn [this world i_ios exception_ closed_ios].
  split; [reflexivity|]. split; [reflexivity|]. split; [reflexivity|].
  destruct (_ == "-"); [repeat split|].
  destruct (file_source_open _ _ _) as [[|] w']; repeat split.
  discriminate.
Qed.

End InputStreams.

(** ** Codec selection, both directions *)

Section CodecSelection.

Context {World : Type} `{Platform World}.

(** A choice made by the suffix tests, first match first, read in terms of
    the tail of the name. *)
Lemma first_match_by_suffix {A} (file : string) (g b l n : A) :
  size file < npos ->
  let v := if ends_with file ".gz" || ends_with file ".gz~" then g
           else if ends_with file ".bz2" || ends_with file ".bz2~" then b
           else if ends_with file ".xz" || ends_with file ".xz~" then l
           else n in
  (is_suffix ".gz" file \/ is_suffix ".gz~" file -> v = g) /\
  (is_suffix ".bz2" file \/ is_suffix ".bz2~" file -> v = b) /\
  (is_suffix ".xz" file \/ is_suffix ".xz~" file -> v = l) /\
  ((forall suffix, In suffix suffix_table -> ~ is_suffix suffix file) ->
   v = n).
Proof.
  intros Hsz. cbv zeta.
  pose proof (suffix_families_exclusive file Hsz) as Hex. cbv zeta in Hex.
  assert (Hin : forall x, is_suffix x file -> ends_with file x = true)
    by (intros x; apply ends_with_is_suffix; exact Hsz).
  repeat split.
  - intros [Hx|Hx]; apply Hin in Hx; rewrite Hx;
      rewrite ?orb_true_r; reflexivity.
  - intros [Hx|Hx]; apply Hin in Hx; rewrite Hx in *;
      rewrite ?orb_true_r in *;
      destruct (ends_with file ".gz" || ends_with file ".gz~");
      destruct Hex as (? & _); try discriminate; reflexivity.
  - intros [Hx|Hx]; apply Hin in Hx; rewrite Hx in *;
      rewrite ?orb_true_r in *;
      destruct (ends_with file ".gz" || ends_with file ".gz~");
      destruct (ends_with file ".bz2" || ends_with file ".bz2~");
      destruct Hex as (? & ? & ?); try discriminate; reflexivity.
  - intros Hnone.
    assert (Hout : forall x, In x suffix_table -> ends_with file x = false).
    { intros x Hx. destruct (ends_with file x) eqn:E; [|reflexivity].
      apply (ends_with_is_suffix file x Hsz) in E.
      destruct (Hnone x Hx E). }
    rewrite !Hout by (simpl; tauto). reflexivity.
Qed.

(** The decompressors pushed, first match first. *)
Lemma input_filters_first_match (name : string) :
  size name < npos ->
  input_filters name =
    if ends_with name ".gz" || ends_with name ".gz~" then [gzip_decompressor]
    else if ends_with name ".bz2" || ends_with name ".bz2~"
    then [bzip2_decompressor]
    else if ends_with name ".xz" || ends_with name ".xz~"
    then [lzma_decompressor]
    else [].
Proof.
  intros Hsz. destruct (suffix_families_exclusive name Hsz) as (H1 & H2 & H3).
  unfold input_filters. cbv zeta.
  destruct (ends_with name ".gz" || ends_with name ".gz~");
    destruct (ends_with name ".bz2" || ends_with name ".bz2~");
    destruct (ends_with name ".xz" || ends_with name ".xz~");
    try discriminate; reflexivity.
Qed.

Lemma input_filters_empty_name : input_filters "/dev/null" = [].
Proof. reflexivity. Qed.

Lemma filter_decompressors_push (filters : filtering_stream) (d : stage) :
  forallb is_decompressor filters = true -> is_decompressor d = false ->
  filter is_decompressor (push filters d) = filters.
Proof.
  unfold push, filtering_stream in *. intros Hf Hd. rewrite filter_app.
  rewrite filter_cons_False by (rewrite Hd; auto).
  rewrite filter_nil, app_nil_r.
  induction filters as [|x filters IH]; [reflexivity|].
  simpl in Hf. apply andb_true_iff in Hf as [Hx Hf].
  rewrite filter_cons_True by (rewrite Hx; exact I).
  f_equal. exact (IH Hf).
Qed.

Lemma input_filters_decompressors (name : string) :
  forallb is_decompressor (input_filters name) = true.
Proof.
  unfold input_filters. cbv zeta.
  destruct (ends_with name ".gz" || ends_with name ".gz~");
    destruct (ends_with name ".bz2" || ends_with name ".bz2~");
    destruct (ends_with name ".xz" || ends_with name ".xz~");
    reflexivity.
Qed.

Lemma decompressors_bound (mask : iostate) (name : string) (d : stage) :
  is_decompressor d = false ->
  decompressors (bound_istream mask (push (input_filters name) d))
  = input_filters name.
Proof.
  intros Hd.
  exact (filter_decompressors_push _ d (input_filters_decompressors name) Hd).
Qed.

(** X10. The pipeline [filter_istream::open] installs for a file that
    opens is the decompressor inferred from the tail of the name, if any,
    followed by the file source: gzip for ".gz" and ".gz~", bzip2 for
    ".bz2" and ".bz2~", lzma for ".xz" and ".xz~", and the file source
    alone when the name ends in no suffix of the table. *)
Theorem input_pipeline_follows_suffix
    (file : string) (mode : openmode) (e : env filter_istream World)
    (w' : World) :
  size file < npos -> file <> "" -> file <> "-" ->
  file_source_open (c_str file) mode (world e) = (true, w') ->
  let source := file_source (c_str file) mode in
  let bound chain :=
    (Ok tt, {| this := bound_istream (exception_ (i_ios (this e))) chain;
               world := w' |}) in
  (is_suffix ".gz" file \/ is_suffix ".gz~" file ->
   filter_istream_open file mode e = bound [gzip_decompressor; source]) /\
  (is_suffix ".bz2" file \/ is_suffix ".bz2~" file ->
   filter_istream_open file mode e = bound [bzip2_decompressor; source]) /\
  (is_suffix ".xz" file \/ is_suffix ".xz~" file ->
   filter_istream_open file mode e = bound [lzma_decompressor; source]) /\
  ((forall suffix, In suffix suffix_table -> ~ is_suffix suffix file) ->
   filter_istream_open file mode e = bound [source]).
Proof.
  intros Hsz Hne Hdash Hopen. cbv zeta.
  apply String.eqb_neq in Hne, Hdash.
  rewrite istream_open_run. cbv zeta. rewrite Hne, Hdash, Hopen.
  rewrite (input_filters_first_match file Hsz).
  destruct (first_match_by_suffix (A := filtering_stream) file
              [gzip_decompressor] [bzip2_decompressor] [lzma_decompressor]
              [] Hsz) as (Hg & Hb & Hl & Hn).
  repeat split; intros Hs;
    [rewrite (Hg Hs)|rewrite (Hb Hs)|rewrite (Hl Hs)|rewrite (Hn Hs)];
    reflexivity.
Qed.

(** X14. Inference agrees in the two directions: for every file name, the
    format of the compressor that [filter_ostream::open] pushes when no
    compression name is given is the format of the decompressor that
    [filter_istream::open] pushes, and one pushes none exactly when the
    other pushes none. *)
Theorem inference_agrees_across_directions
    (file : string) (mode_out mode_in : openmode) (level : Z)
    (w w1 w2 : World) :
  size file < npos ->
  sink_opens file mode_out w w1 ->
  source_opens file mode_in w w2 ->
  exists (out : filter_ostream) (inp : filter_istream),
    filter_ostream_new_file file mode_out "" level w = (Ok out, w1) /\
    filter_istream_new_file file mode_in w = (Ok inp, w2) /\
    map family (compressors out) = map family (decompressors inp).
Proof.
  intros Hsz Hsink Hsource.
  destruct (inferred_compressor file mode_out level w w1 Hsink)
    as (out & Hout & Hc).
  exists out. unfold filter_istream_new_file, construct.
  rewrite istream_open_run. cbv zeta in *. unfold source_opens in Hsource.
  cbv zeta in Hsource.
  set (name := if file == "" then "/dev/null" else file) in *.
  assert (Hn : size name < npos)
    by (subst name; destruct (file == ""); [reflexivity|exact Hsz]).
  cbn [this world].
  destruct (name == "-").
  - subst w2. eexists. split; [exact Hout|]. split; [reflexivity|].
    cbn [this]. rewrite Hc, decompressors_bound by reflexivity.
    rewrite (input_filters_first_match name Hn).
    destruct (ends_with name ".gz" || ends_with name ".gz~");
      destruct (ends_with name ".bz2" || ends_with name ".bz2~");
      destruct (ends_with name ".xz" || ends_with name ".xz~");
      reflexivity.
  - rewrite Hsource. eexists. split; [exact Hout|]. split; [reflexivity|].
    cbn [this]. rewrite Hc, decompressors_bound by reflexivity.
    rewrite (input_filters_first_match name Hn).
    destruct (ends_with name ".gz" || ends_with name ".gz~");
      destruct (ends_with name ".bz2" || ends_with name ".bz2~");
      destruct (ends_with name ".xz" || ends_with name ".xz~");
      reflexivity.
Qed.

End CodecSelection.

(** ** Explicit names, failures and the world *)

Section ExplicitAndFailures.

Context {World : Type} `{Platform World}.

(** X7. An explicit compression name wins over the file name: for every
    file name, whatever its suffix, the names "gz" and "gzip" push one
    gzip compressor, "bz2" and "bzip2" one bzip2 compressor, "lzma" and
    "xz" one lzma compressor, built with the level unless it is -1. *)
Theorem explicit_codec_overrides_suffix
    (file : string) (mode : openmode) (level : Z) (w w' : World) :
  sink_opens file mode w w' ->
  let built compression chain :=
    exists s,
      filter_ostream_new_file file mode compression level w = (Ok s, w') /\
      compressors s = chain in
  built "gz" [gzip_compressor (params_of level)] /\
  built "gzip" [gzip_compressor (params_of level)] /\
  built "bz2" [bzip2_compressor (params_of level)] /\
  built "bzip2" [bzip2_compressor (params_of level)] /\
  built "lzma" [lzma_compressor (params_of level)] /\
  built "xz" [lzma_compressor (params_of level)].
Proof.
  unfold sink_opens. cbv zeta. intros Hopen.
  repeat split; expose;
    set (name := if file == "" then "/dev/null" else file) in *;
    destruct (name == "-"); destruct (level =? -1); cbv beta iota;
    repeat step; simplify_eq;
    (eexists; split; [reflexivity|reflexivity]).
Qed.

(** X8. The descriptor overload rejects an unknown compression name like
    the file-name overload: on a usable stream it throws the unknown-codec
    exception, and in every case the world, the owned pipeline and the
    buffer are the ones before the call. *)
Theorem descriptor_unknown_codec
    (fd : Z) (mode : openmode) (compression : string) (level : Z)
    (e : env filter_ostream World) :
  ~ In compression compression_vocabulary ->
  let r := filter_ostream_open_fd fd mode compression level e in
  snd r = {| this := entered (this e); world := world e |} /\
  (usable (o_ios (this e)) = true -> fst r = Throw (UnknownCodec compression))
  /\
  (usable (o_ios (this e)) = false ->
   fst r = Throw (ios_base_failure "basic_ios::clear")).
Proof.
  intros Hout. cbv zeta.
  destruct (outside_vocabulary _ Hout)
    as (E0 & E1 & E2 & E3 & E4 & E5 & E6 & E7).
  unfold filter_ostream_open_fd. cbv zeta. rewrite entry_bind.
  destruct (usable _).
  - unfold bind. rewrite E0, E1, E2, E3, E4, E5, E6, E7. cbn [orb andb negb].
    repeat split. discriminate.
  - repeat split. discriminate.
Qed.

(** X9. [ends_with] on the bounds.  A suffix longer than the string is
    never found, although [str.size() - what.size()] wraps around.  On a
    string of representable size the empty suffix and the string itself
    are always found, and a suffix that is found is not longer than the
    string. *)
Theorem ends_with_bounds (str what : string) :
  (size str < size what -> ends_with str what = false) /\
  (size str < npos ->
   ends_with str "" = true /\
   ends_with str str = true /\
   (ends_with str what = true -> size what <= size str)).
Proof.
  split.
  - intros Hlt. unfold ends_with, rfind.
    assert (Hle : (size what <=? size str) = false) by (apply Z.leb_gt; lia).
    rewrite Hle. reflexivity.
  - intros Hsz. split; [|split].
    + apply (ends_with_is_suffix str "" Hsz). exists str.
      symmetry. apply append_nil_r.
    + apply (ends_with_is_suffix str str Hsz). exists "". reflexivity.
    + intros He. apply (ends_with_is_suffix str what Hsz) in He.
      apply is_suffix_length in He. unfold size. lia.
Qed.

(** X13. When the file sink does not open, [filter_ostream::open] on a
    usable stream throws "couldn't open file " followed by the normalized
    file name, "/dev/null" for the empty name, for every compression
    name of the vocabulary; the compressor that was pushed is dropped with
    the new pipeline, and the stream keeps what it had. *)
Theorem output_open_failure_names_normalized_file
    (file : string) (mode : openmode) (compression : string) (level : Z)
    (e : env filter_ostream World) (w' : World) :
  let name := if file == "" then "/dev/null" else file in
  In compression compression_vocabulary ->
  usable (o_ios (this e)) = true ->
  name <> "-" ->
  file_sink_open (c_str name) mode (world e) = (false, w') ->
  filter_ostream_open file mode compression level e
    = (Throw (OpenFailed name),
       {| this := entered (this e); world := w' |}).
Proof.
  cbv zeta. intros Hin Hu Hdash Hopen.
  apply String.eqb_neq in Hdash.
  unfold filter_ostream_open. cbv zeta. rewrite entry_bind, Hu.
  set (name := if file == "" then "/dev/null" else file) in *.
  rewrite Hdash. unfold bind, in_world, ret, throw, push, Exception,
    OpenFailed.
  cbn [this world].
  simpl in Hin.
  repeat (destruct Hin as [<-|Hin]; [|]); try contradiction;
    cbn [String.eqb Ascii.eqb Bool.eqb orb andb negb];
    repeat match goal with
    | |- context [ends_with name ?x] => destruct (ends_with name x)
    end;
    cbn [orb andb negb]; destruct (level =? -1);
    cbv beta iota; cbn [this world]; rewrite Hopen; reflexivity.
Qed.



End ExplicitAndFailures.

(** ** The shape of an output pipeline *)

Section OutputShape.

Context {World : Type} `{Platform World}.

Ltac compressor_leaf :=
  first
    [ apply hoare_throw; intros ? ?; exact I
    | apply hoare_ret; intros ? _; split; [reflexivity|simpl; lia] ].

Lemma ostream_open_shape_triple
    (file : string) (mode : openmode) (compression : string) (level : Z) :
  let name := if file == "" then "/dev/null" else file in
  hoare (fun _ : env filter_ostream World => True)
        (filter_ostream_open file mode compression level)
        (fun _ e => exists chain d,
             o_stream (this e) = Some chain /\
             active_chain (o_ios (this e)) = Some chain /\
             output_shape chain d /\
             (d = std_cout \/ d = file_sink (c_str name) mode))
        (fun _ => True).
Proof.
  cbv zeta. unfold filter_ostream_open. cbv zeta.
  set (name := if file == "" then "/dev/null" else file).
  apply hoare_bind with (Q' := fun _ _ => True).
  { intros e _. rewrite ostream_entry. destruct (usable _); exact I. }
  intros _.
  apply hoare_bind
    with (Q' := fun filters _ =>
                  forallb is_compressor filters = true /\
                  (List.length filters <= 1)%nat).
  { repeat apply hoare_if; compressor_leaf. }
  intros filters.
  apply hoare_bind
    with (Q' := fun chain _ => exists d,
                  output_shape chain d /\
                  (d = std_cout \/ d = file_sink (c_str name) mode)).
  { apply hoare_if.
    - apply hoare_ret. intros e [Hf Hl]. exists std_cout.
      split; [exists filters; auto|left; reflexivity].
    - apply hoare_bind
        with (Q' := fun _ _ =>
                      forallb is_compressor filters = true /\
                      (List.length filters <= 1)%nat).
      + intros e Hf. unfold in_world.
        destruct (file_sink_open _ _ _). exact Hf.
      + intros is_open. apply hoare_if.
        * apply hoare_throw. intros e _. exact I.
        * apply hoare_ret. intros e [Hf Hl]. eexists.
          split; [exists filters; auto|right; reflexivity]. }
  intros chain e (d & Hs & Hd). rewrite ostream_install_run.
  exists chain, d. repeat split; assumption.
Qed.

Lemma ostream_open_fd_shape_triple
    (fd : Z) (mode : openmode) (compression : string) (level : Z) :
  hoare (fun _ : env filter_ostream World => True)
        (filter_ostream_open_fd fd mode compression level)
        (fun _ e => exists chain,
             o_stream (this e) = Some chain /\
             active_chain (o_ios (this e)) = Some chain /\
             output_shape chain (descriptor_sink fd))
        (fun _ => True).
Proof.
  unfold filter_ostream_open_fd. cbv zeta.
  apply hoare_bind with (Q' := fun _ _ => True).
  { intros e _. rewrite ostream_entry. destruct (usable _); exact I. }
  intros _.
  apply hoare_bind
    with (Q' := fun filters _ =>
                  forallb is_compressor filters = true /\
                  (List.length filters <= 1)%nat).
  { repeat apply hoare_if; compressor_leaf. }
  intros filters e [Hf Hl]. rewrite ostream_install_run.
  eexists. split; [reflexivity|]. split; [reflexivity|].
  exists filters. unfold descriptor_sink, push.
  destruct (BOOST_VERSION <? 104100); auto.
Qed.

(** X16. A pipeline installed by an output [open] has one shape: at most
    one compressor stage, then exactly one device, which is [std::cout]
    or the file sink of the normalized name for the file-name overload
    and the descriptor sink for the descriptor overload.  The chain is
    both owned by the stream and its active buffer. *)
Theorem output_pipeline_shape :
  (forall file mode compression level (e e' : env filter_ostream World),
     filter_ostream_open file mode compression level e = (Ok tt, e') ->
     exists chain d,
       o_stream (this e') = Some chain /\
       active_chain (o_ios (this e')) = Some chain /\
       output_shape chain d /\
       (d = std_cout \/
        d = file_sink (c_str (if file == "" then "/dev/null" else file))
              mode))
  /\
  (forall fd mode compression level (e e' : env filter_ostream World),
     filter_ostream_open_fd fd mode compression level e = (Ok tt, e') ->
     exists chain,
       o_stream (this e') = Some chain /\
       active_chain (o_ios (this e')) = Some chain /\
       output_shape chain (descriptor_sink fd)).
Proof.
  split.
  - intros file mode compression level e e' Hopen.
    pose proof (ostream_open_shape_triple file mode compression level e I)
      as Ht.
    cbv zeta in Ht. rewrite Hopen in Ht. exact Ht.
  - intros fd mode compression level e e' Hopen.
    pose proof (ostream_open_fd_shape_triple fd mode compression level e I)
      as Ht.
    rewrite Hopen in Ht. exact Ht.
Qed.

End OutputShape.

(** ** The further properties on the reference platform *)

Section ReferenceFurther.

Import RefPlatform.

Lemma close_after_open_throws_witness :
  let e := {| this := filter_ostream_new; world := w0 |} in
  let e' := {| this := bound_ostream [gzip_compressor default_params;
                                      file_sink "out.gz" ios_out];
               world := snd (sink_open "out.gz" ios_out w0) |} in
  filter_ostream_open "out.gz" ios_out "" (-1) e = (Ok tt, e') /\
  fst (filter_ostream_close e') = Throw (ios_base_failure "basic_ios::clear").
Proof.
  cbv zeta.
  assert (Hopen :
    filter_ostream_open "out.gz" ios_out "" (-1)
      {| this := filter_ostream_new; world := w0 |}
    = (Ok tt,
       {| this := bound_ostream [gzip_compressor default_params;
                                 file_sink "out.gz" ios_out];
          world := snd (sink_open "out.gz" ios_out w0) |}))
    by reflexivity.
  split; [exact Hopen|].
  exact (proj1 (close_after_open_throws _ _ _ _ _ _ Hopen)).
Defined.

Lemma unusable_output_stream_cannot_open_witness :
  let e := snd (filter_ostream_close
                  {| this := filter_ostream_new; world := w0 |}) in
  usable (o_ios (this e)) = false /\
  filter_ostream_open "out.gz" ios_out "" (-1) e
    = (Throw (ios_base_failure "basic_ios::clear"),
       {| this := entered (this e); world := world e |}).
Proof.
  cbv zeta.
  assert (Hu : usable (o_ios (this (snd (filter_ostream_close
                 {| this := filter_ostream_new; world := w0 |})))) = false)
    by reflexivity.
  split; [exact Hu|].
  exact (proj1 (unusable_output_stream_cannot_open
                  "out.gz" 1 ios_out "" (-1) _ Hu)).
Defined.

Lemma successful_output_open_is_good_witness :
  let e := {| this := filter_ostream_new; world := w0 |} in
  let e' := {| this := bound_ostream [file_sink "a.txt" ios_out];
               world := snd (sink_open "a.txt" ios_out w0) |} in
  filter_ostream_open "a.txt" ios_out "none" 9 e = (Ok tt, e') /\
  filter_ostream_status (this e') = "good".
Proof.
  cbv zeta.
  assert (Hopen :
    filter_ostream_open "a.txt" ios_out "none" 9
      {| this := filter_ostream_new; world := w0 |}
    = (Ok tt,
       {| this := bound_ostream [file_sink "a.txt" ios_out];
          world := snd (sink_open "a.txt" ios_out w0) |}))
    by reflexivity.
  split; [exact Hopen|].
  exact (proj1 (proj2 (proj1 successful_output_open_is_good
                         _ _ _ _ _ _ Hopen))).
Defined.


Lemma failed_output_open_allows_retry_witness :
  let e := {| this := filter_ostream_new; world := w0 |} in
  let e' := {| this := entered filter_ostream_new;
               world := set_errno EACCES w0 |} in
  usable (o_ios (this e)) = true /\
  filter_ostream_open "locked.txt" ios_out "" (-1) e
    = (Throw (OpenFailed "locked.txt"), e') /\
  usable (o_ios (this e')) = true.
Proof.
  cbv zeta.
  assert (Hu : usable (o_ios filter_ostream_new) = true) by reflexivity.
  assert (Hopen :
    filter_ostream_open "locked.txt" ios_out "" (-1)
      {| this := filter_ostream_new; world := w0 |}
    = (Throw (OpenFailed "locked.txt"),
       {| this := entered filter_ostream_new;
          world := set_errno EACCES w0 |})) by reflexivity.
  split; [exact Hu|]. split; [exact Hopen|].
  exact (proj1 (failed_output_open_allows_retry
                  "locked.txt" ios_out "" (-1)
                  {| this := filter_ostream_new; world := w0 |}
                  _ _ Hu Hopen)).
Defined.

Lemma explicit_codec_overrides_suffix_witness :
  let w' := snd (sink_open "data.bz2" ios_out w0) in
  sink_opens "data.bz2" ios_out w0 w' /\
  exists s,
    filter_ostream_new_file "data.bz2" ios_out "gz" 9 w0 = (Ok s, w') /\
    compressors s = [gzip_compressor (params_of 9)].
Proof.
  cbv zeta.
  assert (Hopen : sink_opens "data.bz2" ios_out w0
                    (snd (sink_open "data.bz2" ios_out w0)))
    by reflexivity.
  split; [exact Hopen|].
  exact (proj1 (explicit_codec_overrides_suffix
                  "data.bz2" ios_out 9 w0 _ Hopen)).
Defined.

Lemma descriptor_unknown_codec_witness :
  let e := {| this := filter_ostream_new; world := w0 |} in
  ~ In "zip" compression_vocabulary /\
  usable (o_ios (this e)) = true /\
  fst (filter_ostream_open_fd 1 ios_out "zip" (-1) e)
    = Throw (UnknownCodec "zip").
Proof.
  cbv zeta.
  assert (Hout : ~ In "zip" compression_vocabulary)
    by (simpl; intuition discriminate).
  assert (Hu : usable (o_ios filter_ostream_new) = true) by reflexivity.
  split; [exact Hout|]. split; [exact Hu|].
  exact (proj1 (proj2 (descriptor_unknown_codec
                         1 ios_out "zip" (-1)
                         {| this := filter_ostream_new; world := w0 |}
                         Hout)) Hu).
Defined.

Lemma ends_with_bounds_witness :
  size "a.gz" < size ".tar.gz" /\ size "a.gz" < npos /\
  ends_with "a.gz" ".tar.gz" = false /\
  ends_with "a.gz" "" = true.
Proof.
  assert (Hlt : size "a.gz" < size ".tar.gz") by reflexivity.
  assert (Hsz : size "a.gz" < npos) by reflexivity.
  split; [exact Hlt|]. split; [exact Hsz|]. split.
  - exact (proj1 (ends_with_bounds "a.gz" ".tar.gz") Hlt).
  - exact (proj1 (proj2 (ends_with_bounds "a.gz" ".tar.gz") Hsz)).
Defined.

Lemma input_pipeline_follows_suffix_witness :
  let e := {| this := filter_istream_new; world := w0 |} in
  size "data.gz" < npos /\ "data.gz" <> "" /\ "data.gz" <> "-" /\
  source_open (c_str "data.gz") ios_in w0 = (true, w0) /\
  is_suffix ".gz" "data.gz" /\
  filter_istream_open "data.gz" ios_in e
    = (Ok tt,
       {| this := bound_istream goodbit
                    [gzip_decompressor;
                     file_source (c_str "data.gz") ios_in];
          world := w0 |}).
Proof.
  cbv zeta.
  assert (Hsz : size "data.gz" < npos) by reflexivity.
  assert (H1 : "data.gz" <> "") by discriminate.
  assert (H2 : "data.gz" <> "-") by discriminate.
  assert (Hopen : source_open (c_str "data.gz") ios_in w0 = (true, w0))
    by reflexivity.
  assert (Hs : is_suffix ".gz" "data.gz") by (exists "data"; reflexivity).
  split; [exact Hsz|]. split; [exact H1|]. split; [exact H2|].
  split; [exact Hopen|]. split; [exact Hs|].
  exact (proj1 (input_pipeline_follows_suffix
                  "data.gz" ios_in
                  {| this := filter_istream_new; world := w0 |} w0
                  Hsz H1 H2 Hopen) (or_introl Hs)).
Defined.

Lemma input_open_resets_state_witness :
  let e := snd (filter_istream_close
                  {| this := filter_istream_new; world := w0 |}) in
  rdstate (i_ios (this e)) = badbit /\
  source_opens "notes.txt" ios_in (world e) w0 /\
  exists chain,
    filter_istream_open "notes.txt" ios_in e
      = (Ok tt, {| this := bound_istream goodbit chain; world := w0 |})
    /\ is_complete chain = true.
Proof.
  cbv zeta.
  assert (Hopen : source_opens "notes.txt" ios_in
                    (world (snd (filter_istream_close
                       {| this := filter_istream_new; world := w0 |}))) w0)
    by reflexivity.
  split; [reflexivity|]. split; [exact Hopen|].
  exact (proj1 (input_open_resets_state "notes.txt" ios_in _) w0 Hopen).
Defined.

Lemma input_close_then_reopen_witness :
  let e := {| this := filter_istream_new; world := w0 |} in
  Z.testbit (exception_ (i_ios (this e))) 0 = false /\
  fst ((filter_istream_close ;; filter_istream_open "notes.txt" ios_in) e)
    = fst (filter_istream_open "notes.txt" ios_in e).
Proof.
  cbv zeta.
  assert (Hm : Z.testbit (exception_ (i_ios filter_istream_new)) 0 = false)
    by reflexivity.
  split; [exact Hm|].
  exact (proj1 (proj2 (proj2 (proj2 (input_close_then_reopen
           "notes.txt" ios_in
           {| this := filter_istream_new; world := w0 |} Hm))))).
Defined.

Lemma output_open_failure_names_normalized_file_witness :
  let e := {| this := filter_ostream_new; world := w0 |} in
  In "gz" compression_vocabulary /\
  usable (o_ios (this e)) = true /\
  "locked.txt" <> "-" /\
  sink_open (c_str "locked.txt") ios_out w0 = (false, set_errno EACCES w0) /\
  filter_ostream_open "locked.txt" ios_out "gz" 9 e
    = (Throw (OpenFailed "locked.txt"),
       {| this := entered filter_ostream_new;
          world := set_errno EACCES w0 |}).
Proof.
  cbv zeta.
  assert (Hin : In "gz" compression_vocabulary) by (simpl; tauto).
  assert (Hu : usable (o_ios filter_ostream_new) = true) by reflexivity.
  assert (Hd : "locked.txt" <> "-") by discriminate.
  assert (Hopen : sink_open (c_str "locked.txt") ios_out w0
                  = (false, set_errno EACCES w0)) by reflexivity.
  split; [exact Hin|]. split; [exact Hu|]. split; [exact Hd|].
  split; [exact Hopen|].
  exact (output_open_failure_names_normalized_file
           "locked.txt" ios_out "gz" 9
           {| this := filter_ostream_new; world := w0 |}
           (set_errno EACCES w0) Hin Hu Hd Hopen).
Defined.

Lemma inference_agrees_across_directions_witness :
  let w1 := snd (sink_open "data.gz" ios_out w0) in
  size "data.gz" < npos /\
  sink_opens "data.gz" ios_out w0 w1 /\
  source_opens "data.gz" ios_in w0 w0 /\
  exists (out : filter_ostream) (inp : filter_istream),
    filter_ostream_new_file "data.gz" ios_out "" (-1) w0 = (Ok out, w1) /\
    filter_istream_new_file "data.gz" ios_in w0 = (Ok inp, w0) /\
    map family (compressors out) = map family (decompressors inp).
Proof.
  cbv zeta.
  assert (Hsz : size "data.gz" < npos) by reflexivity.
  assert (H1 : sink_opens "data.gz" ios_out w0
                 (snd (sink_open "data.gz" ios_out w0))) by reflexivity.
  assert (H2 : source_opens "data.gz" ios_in w0 w0) by reflexivity.
  split; [exact Hsz|]. split; [exact H1|]. split; [exact H2|].
  exact (inference_agrees_across_directions
           "data.gz" ios_out ios_in (-1) w0 _ w0 Hsz H1 H2).
Defined.

Lemma output_pipeline_shape_witness :
  let e := {| this := filter_ostream_new; world := w0 |} in
  let e' := {| this := bound_ostream [gzip_compressor (with_level 9);
                                      file_sink "out.txt" ios_out];
               world := snd (sink_open "out.txt" ios_out w0) |} in
  filter_ostream_open "out.txt" ios_out "gzip" 9 e = (Ok tt, e') /\
  exists chain d,
    o_stream (this e') = Some chain /\
    active_chain (o_ios (this e')) = Some chain /\
    output_shape chain d /\
    (d = std_cout \/ d = file_sink (c_str "out.txt") ios_out).
Proof.
  cbv zeta.
  assert (Hopen :
    filter_ostream_open "out.txt" ios_out "gzip" 9
      {| this := filter_ostream_new; world := w0 |}
    = (Ok tt,
       {| this := bound_ostream [gzip_compressor (with_level 9);
                                 file_sink "out.txt" ios_out];
          world := snd (sink_open "out.txt" ios_out w0) |}))
    by reflexivity.
  split; [exact Hopen|].
  exact (proj1 output_pipeline_shape
           "out.txt" ios_out "gzip" 9
           {| this := filter_ostream_new; world := w0 |} _ Hopen).
Defined.

End ReferenceFurther.
